(** * pdf2docx text layer: text spans and line collections

    A shallow embedding of [pdf2docx/text/TextSpan.py] and
    [pdf2docx/text/Lines.py].

    - Python objects that are mutated or compared by identity live in a
      store and are referred to by address.
    - A method is a computation in a state-and-exception monad: it takes the
      store, and gives the store back together with a value or the raised
      exception.
    - Coordinates, font sizes and thresholds are IEEE-754 binary64 numbers,
      as Python's [float].
    - Classes of the package that the two modules only use ([Char], [BBox],
      [Rectangle], [Line], [Collection], the block) and PyMuPDF's [fitz.Rect]
      are interfaces: records of operations, instantiated in [Demo] for the
      examples. *)

From Stdlib Require Import PrimFloat ZArith NArith Ascii String List Permutation Lia.
From stdpp Require Import base option list gmap strings.

Set Warnings "-register-all,-inexact-float".
Open Scope Z_scope.

(** ** Python runtime *)

Module Py.

Inductive exn := TypeError | AttributeError | ZeroDivisionError | IndexError.

Inductive result (A : Type) := Ok (a : A) | Raise (e : exn).
Arguments Ok {A} a.
Arguments Raise {A} e.

#[export] Instance result_ret : MRet result := fun A a => Ok a.
#[export] Instance result_bind : MBind result := fun A B f m =>
  match m with Ok a => f a | Raise e => Raise e end.

(** [M S A]: a computation on a store [S] that returns an [A] or raises.
    The store at the point of a raise is kept: what was mutated before the
    exception stays mutated. *)
Definition M (S A : Type) : Type := S -> S * result A.

#[export] Instance M_ret {S} : MRet (M S) := fun A a s => (s, Ok a).
#[export] Instance M_bind {S} : MBind (M S) := fun A B f m s =>
  match m s with
  | (s', Ok a) => f a s'
  | (s', Raise e) => (s', Raise e)
  end.

Definition raise {S A} (e : exn) : M S A := fun s => (s, Raise e).
Definition lift {S A} (r : result A) : M S A := fun s => (s, r).
Definition gets {S A} (f : S -> A) : M S A := fun s => (s, Ok (f s)).
Definition modify {S} (f : S -> S) : M S unit := fun s => (f s, Ok tt).

(** An object reference. *)
Definition addr := nat.

Definition upd {A} (f : addr -> A) (a : addr) (v : A) : addr -> A :=
  fun b => if Nat.eqb b a then v else f b.

(** A Python [str]: a sequence of code points. *)
Definition pystr := list N.

Definition pystr_of_string (s : string) : pystr :=
  map (fun a => N_of_ascii a) (list_ascii_of_string s).

(** The values a raw record holds. *)
Inductive PyVal :=
| VNone
| VBool (b : bool)
| VInt (z : Z)
| VFloat (f : float)
| VStr (s : pystr)
| VTuple (vs : list PyVal)
| VList (vs : list PyVal)
| VDict (d : gmap string PyVal).

(** [raw.get(key, dflt)]; only a dict has the method. *)
Definition py_get (raw : PyVal) (key : string) (dflt : PyVal) : result PyVal :=
  match raw with
  | VDict d => Ok (default dflt (d !! key))
  | _ => Raise AttributeError
  end.

(** [for x in v]: the items of a list or tuple, the characters of a string,
    the keys of a dict (here in key order, the insertion order is not
    tracked); anything else is not iterable. *)
Definition py_iter (v : PyVal) : result (list PyVal) :=
  match v with
  | VList vs | VTuple vs => Ok vs
  | VStr s => Ok (map (fun ch => VStr [ch]) s)
  | VDict d => Ok (map (fun kv => VStr (pystr_of_string (fst kv))) (map_to_list d))
  | _ => Raise TypeError
  end.

(** [res.update(d)]: the entries of [d] win. *)
Definition dict_update (res d : gmap string PyVal) : gmap string PyVal := d ∪ res.

(** [[f(x) for x in xs]] with a fallible [f]. *)
Fixpoint map_result {A B} (f : A -> result B) (xs : list A) : result (list B) :=
  match xs with
  | [] => Ok []
  | x :: xs' => y ← f x; ys ← map_result f xs'; Ok (y :: ys)
  end.

(** [list(enumerate(xs))]. *)
Fixpoint enumerate_from {A} (i : nat) (xs : list A) : list (nat * A) :=
  match xs with
  | [] => []
  | x :: xs' => (i, x) :: enumerate_from (S i) xs'
  end.
Definition enumerate {A} (xs : list A) : list (nat * A) := enumerate_from 0 xs.

(** Slices [xs[lo:hi]] and [xs[lo:]]: a negative bound counts from the end,
    and bounds are clamped to the sequence. *)
Definition slice_bound (len i : Z) : Z :=
  if i <? 0 then Z.max (i + len) 0 else Z.min i len.

Definition py_slice {A} (xs : list A) (lo hi : Z) : list A :=
  let len := Z.of_nat (length xs) in
  let lo' := slice_bound len lo in
  let hi' := slice_bound len hi in
  take (Z.to_nat (hi' - lo')) (drop (Z.to_nat lo') xs).

Definition py_slice_from {A} (xs : list A) (lo : Z) : list A :=
  let len := Z.of_nat (length xs) in
  drop (Z.to_nat (slice_bound len lo)) xs.

(** Float division [a / b]. *)
Definition py_truediv (a b : float) : result float :=
  if (b =? 0)%float then Raise ZeroDivisionError else Ok (a / b)%float.

(** [x > y] on floats. *)
Definition py_gt (x y : float) : bool := (y <? x)%float.

(** Whitespace for [str.strip()] and [str.isspace()]. *)
Definition is_space (ch : N) : bool :=
  (((9 <=? ch) && (ch <=? 13)) || ((28 <=? ch) && (ch <=? 32))
   || (ch =? 133) || (ch =? 160) || (ch =? 5760)
   || ((8192 <=? ch) && (ch <=? 8202)) || (ch =? 8232) || (ch =? 8233)
   || (ch =? 8239) || (ch =? 8287) || (ch =? 12288))%N.

Fixpoint lstrip (s : pystr) : pystr :=
  match s with
  | ch :: s' => if is_space ch then lstrip s' else s
  | [] => []
  end.

(** [s.strip()] *)
Definition py_strip (s : pystr) : pystr := rev (lstrip (rev (lstrip s))).

(** Stable sort by [<] on the elements, as [list.sort]: each element is put
    behind the ones already placed that it is not smaller than. With a
    strict weak order (floats without NaN) the result is the one of
    Python's sort. *)
Fixpoint insert_by {A} (lt : A -> A -> bool) (x : A) (sorted : list A) : list A :=
  match sorted with
  | [] => [x]
  | y :: ys => if lt x y then x :: y :: ys else y :: insert_by lt x ys
  end.

Definition sort_by {A} (lt : A -> A -> bool) (xs : list A) : list A :=
  fold_left (fun acc x => insert_by lt x acc) xs [].

End Py.

Import Py.

(** ** PyMuPDF rectangles *)

Module Fitz.

Record Rect := mkRect { x0 : float; y0 : float; x1 : float; y1 : float }.

(** [fitz.Rect()] *)
Definition Rect0 : Rect := mkRect 0 0 0 0.

(** [r[i]] for the indices the package uses. *)
Definition getitem (r : Rect) (i : Z) : float :=
  if i =? 0 then x0 r else if i =? 1 then y0 r else if i =? 2 then x1 r else y1 r.

(** The operations of [fitz.Rect] that the package calls. *)
Class RectOps := {
  rect_and : Rect -> Rect -> Rect;        (* a & b *)
  rect_or : Rect -> Rect -> Rect;         (* a | b *)
  rect_bool : Rect -> bool;               (* bool(a) *)
  rect_contains : Rect -> Rect -> bool;   (* a.contains(b) *)
  rect_intersects : Rect -> Rect -> bool  (* a.intersects(b) *)
}.

End Fitz.

Import Fitz.

(** ** TextSpan.py *)

Module TextSpan.

(** One entry of [style]: the dict [{'type': int, 'color': int}]. *)
Record Style := mkStyle { style_type : Z; style_color : Z }.

(** What the module uses of [Char], of the style shape ([Rectangle]), of the
    base class [BBox] and of [utils]; none of them is defined in the two
    modules embedded here. *)
Class BaseOps := {
  Char : Type;
  Char_c : Char -> pystr;                       (* char.c *)
  Char_bbox : Char -> Rect;                     (* char.bbox *)
  Char_init : PyVal -> result Char;             (* Char(raw) *)
  Char_store : Char -> PyVal;                   (* char.store() *)
  Shape : Type;
  Shape_bbox : Shape -> Rect;                   (* rect.bbox *)
  contained_in_rect : Char -> Shape -> bool;    (* char.contained_in_rect(rect) *)
  BBox_init : PyVal -> result Rect;             (* BBox.__init__(raw): sets self.bbox *)
  BBox_store : Rect -> gmap string PyVal;       (* BBox.store() *)
  BBox_update : Rect -> Rect -> Rect;           (* BBox.update(rect): the new self.bbox *)
  get_main_bbox : Rect -> Rect -> float -> bool (* bool(utils.get_main_bbox(a, b, threshold)) *)
}.

Section Model.
Context {RO : RectOps} {BO : BaseOps}.

(** The attributes of a [TextSpan] object. The raw dict is untyped:
    [color], [font], [size] and [flags] hold whatever value it had. *)
Record TextSpan := mkTextSpan {
  bbox : Rect;
  color : PyVal;
  font : PyVal;
  size : PyVal;
  flags : PyVal;
  chars : list Char;
  _text : option pystr;
  style : list Style
}.

Definition with_bbox (s : TextSpan) (b : Rect) : TextSpan :=
  mkTextSpan b (color s) (font s) (size s) (flags s) (chars s) (_text s) (style s).
Definition with_chars (s : TextSpan) (cs : list Char) : TextSpan :=
  mkTextSpan (bbox s) (color s) (font s) (size s) (flags s) cs (_text s) (style s).
Definition with__text (s : TextSpan) (t : option pystr) : TextSpan :=
  mkTextSpan (bbox s) (color s) (font s) (size s) (flags s) (chars s) t (style s).
Definition with_style (s : TextSpan) (st : list Style) : TextSpan :=
  mkTextSpan (bbox s) (color s) (font s) (size s) (flags s) (chars s) (_text s) st.

(** [rect.to_text_style(span)]: [None] stands for every falsy result. *)
Class StyleOps := { to_text_style : Shape -> TextSpan -> option Style }.
Context {SO : StyleOps}.

(** The store of [TextSpan] objects; [next] is the first address not yet
    allocated. *)
Record Heap := mkHeap { cells : addr -> TextSpan; next : addr }.

Definition load (a : addr) : M Heap TextSpan := gets (fun h => cells h a).
Definition write (a : addr) (s : TextSpan) : M Heap unit :=
  modify (fun h => mkHeap (upd (cells h) a s) (next h)).
Definition alloc (s : TextSpan) : M Heap addr :=
  fun h => (mkHeap (upd (cells h) (next h) s) (S (next h)), Ok (next h)).

(** [copy.deepcopy(obj)]: a new object with the same attribute values. *)
Definition deepcopy (a : addr) : M Heap addr := s ← load a; alloc s.

(** Modelled from the spec: [BBox.copy] returns a full copy of the run. *)
Definition copy (a : addr) : M Heap addr := deepcopy a.

(** Attribute assignments [obj.bbox = v], [obj.chars = v] and
    [obj.style.append(v)]. *)
Definition set_bbox (a : addr) (v : Rect) : M Heap unit :=
  s ← load a; write a (with_bbox s v).
Definition set_chars (a : addr) (v : list Char) : M Heap unit :=
  s ← load a; write a (with_chars s v).
Definition style_append (a : addr) (v : Style) : M Heap unit :=
  s ← load a; write a (with_style s (style s ++ [v])).

(** [__init__(self, raw)], lines 47-57. *)
Definition __init__ (raw : PyVal) : result TextSpan :=
  b ← BBox_init raw;
  color ← py_get raw "color" (VInt 0);
  font ← py_get raw "font" VNone;
  size ← py_get raw "size" (VFloat 12);
  flags ← py_get raw "flags" (VInt 0);
  raw_chars ← py_get raw "chars" (VList []);
  items ← py_iter raw_chars;
  chars ← map_result Char_init items;
  Ok (mkTextSpan b color font size flags chars None []).

(** The call [TextSpan(args...)]: [__init__] has the one parameter [raw],
    without a default, so any other number of arguments is a [TypeError]
    raised before the body runs. *)
Definition new (args : list PyVal) : M Heap addr :=
  match args with
  | [raw] => s ← lift (__init__ raw); alloc s
  | _ => raise TypeError
  end.

(** The property [text], lines 60-67: the getter caches the joined
    characters in [_text] of the object it is read from. *)
Definition text (self : addr) : M Heap pystr :=
  s ← load self;
  match _text s with
  | None =>
      let chars := map Char_c (chars s) in
      let t := concat chars in
      write self (with__text s (Some t));;
      mret t
  | Some t => mret t
  end.

(** [obj.text = v]: [text] is declared by [@property] alone, there is no
    [@text.setter], so the assignment raises [AttributeError]. *)
Definition set_text (a : addr) (v : pystr) : M Heap unit := raise AttributeError.

(** [store(self)], lines 69-80. *)
Definition store (s : TextSpan) : gmap string PyVal :=
  let res := BBox_store (bbox s) in
  dict_update res
    (<["color" := color s]> (<["font" := font s]> (<["size" := size s]>
      (<["flags" := flags s]> (<["chars" := VList (map Char_store (chars s))]> ∅))))).

(** The characters of the run that the shape contains, with their indices
    (line 112-113), and the start index (line 116). *)
Definition index_chars (cs : list Char) (rect : Shape) : list (nat * Char) :=
  let f := fun items : nat * Char => contained_in_rect (snd items) rect in
  List.filter f (enumerate cs).

Definition start_index (ics : list (nat * Char)) : Z :=
  match ics with
  | ic :: _ => Z.of_nat (fst ic)
  | [] => -1
  end.

(** The three parts of [split]: a deep copy of the run, given its own
    bbox, characters and text. Left part, lines 124-128. *)
Definition left_part (self : addr) (intsec : Rect) (pos : Z) : M Heap addr :=
  split_span ← deepcopy self;
  s ← load self;
  set_bbox split_span (mkRect (x0 (bbox s)) (y0 (bbox s)) (x0 intsec) (y1 (bbox s)));;
  set_chars split_span (py_slice (chars s) 0 pos);;
  t ← text self;
  set_text split_span (py_slice t 0 pos);;
  mret split_span.

(** Middle part, lines 132-140, with the style of the shape. *)
Definition middle_part (self : addr) (rect : Shape) (intsec : Rect) (pos pos_end : Z)
    : M Heap addr :=
  split_span ← deepcopy self;
  set_bbox split_span (mkRect (x0 intsec) (y0 intsec) (x1 intsec) (y1 intsec));;
  s ← load self;
  set_chars split_span (py_slice (chars s) pos pos_end);;
  t ← text self;
  set_text split_span (py_slice t pos pos_end);;
  part ← load split_span;
  match to_text_style rect part with
  | Some new_style => style_append split_span new_style
  | None => mret tt
  end;;
  mret split_span.

(** Right part, lines 146-149. *)
Definition right_part (self : addr) (intsec : Rect) (pos_end : Z) : M Heap addr :=
  split_span ← deepcopy self;
  s ← load self;
  set_bbox split_span (mkRect (x1 intsec) (y0 (bbox s)) (x1 (bbox s)) (y1 (bbox s)));;
  set_chars split_span (py_slice_from (chars s) pos_end);;
  t ← text self;
  set_text split_span (py_slice_from t pos_end);;
  mret split_span.

(** [split(self, rect)], lines 91-152. *)
Definition split (self : addr) (rect : Shape) : M Heap (list addr) :=
  s ← load self;
  let intsec := rect_and (Shape_bbox rect) (bbox s) in
  if negb (rect_bool intsec) then mret [self] else
  let split_spans : list addr := [] in
  let intsec := mkRect (x0 intsec) (y0 (bbox s)) (x1 intsec) (y1 (bbox s)) in
  let ics := index_chars (chars s) rect in
  let pos := start_index ics in
  let length := Z.of_nat (length ics) in
  let pos_end := Z.max (pos + length) 0 in
  split_spans ←
    (if 0 <? pos then
       split_span ← left_part self intsec pos;
       mret (split_spans ++ [split_span])
     else mret split_spans);
  split_spans ←
    (if 0 <? length then
       split_span ← middle_part self rect intsec pos pos_end;
       mret (split_spans ++ [split_span])
     else mret split_spans);
  s ← load self;
  split_spans ←
    (if pos_end <? Z.of_nat (List.length (chars s)) then
       split_span ← right_part self intsec pos_end;
       mret (split_spans ++ [split_span])
     else mret split_spans);
  mret split_spans.

(** An argument of a call of [split]. *)
Inductive Arg := AShape (rect : Shape) | AVal (v : PyVal).

(** The call [span.split(args...)]: the method is [split(self, rect)], so
    one argument is bound to [rect] and any other number is a [TypeError];
    a value that is not a shape has no [bbox]. *)
Definition call_split (self : addr) (args : list Arg) : M Heap (list addr) :=
  match args with
  | [AShape rect] => split self rect
  | [AVal _] => raise AttributeError
  | _ => raise TypeError
  end.

(** The loop of [intersect], lines 166-171. *)
Fixpoint intersect_chars (self_bbox rect : Rect) (cs : list Char)
    (span_chars : list Char) (span_bbox : Rect) : list Char * Rect :=
  match cs with
  | [] => (span_chars, span_bbox)
  | char :: cs' =>
      if get_main_bbox (Char_bbox char) rect 0.2
      then intersect_chars self_bbox rect cs' (span_chars ++ [char]) (rect_or span_bbox self_bbox)
      else intersect_chars self_bbox rect cs' span_chars span_bbox
  end.

(** [intersect(self, rect)], lines 155-180. *)
Definition intersect (self : addr) (rect : Rect) : M Heap addr :=
  s ← load self;
  if rect_contains rect (bbox s) then copy self else
  if negb (rect_intersects rect (bbox s)) then new [] else
  let '(span_chars, span_bbox) := intersect_chars (bbox s) rect (chars s) [] Rect0 in
  match span_chars with
  | [] => new []
  | _ =>
      span ← copy self;
      set_chars span span_chars;;
      sp ← load span;
      set_bbox span (BBox_update (bbox sp) span_bbox);;
      mret span
  end.

End Model.

Arguments TextSpan {BO}.
Arguments Heap {BO}.
Arguments StyleOps {BO}.

End TextSpan.

(** ** Lines.py *)

Module Lines.

(** A run of a line: a reference to a [TextSpan] or to an [ImageSpan]
    object; the constructor is what [isinstance(span, ImageSpan)] tests. *)
Inductive Run := RText (a : addr) | RImage (a : addr).

(** Modelled from the spec: the text-alignment enumeration, of which the
    module only tests whether a block is aligned RIGHT. *)
Inductive TextAlignment := RIGHT | NOT_RIGHT.

Definition is_RIGHT (a : TextAlignment) : bool :=
  match a with RIGHT => true | NOT_RIGHT => false end.

(** Modelled from the spec: the owning block, with the attributes that
    [parse_line_break] reads. *)
Record Block := mkBlock {
  block_bbox : Rect;
  block_is_horizontal_text : bool;
  alignment : TextAlignment;
  left_space : float;
  left_space_total : float;
  right_space : float;
  right_space_total : float
}.

(** Modelled from the spec: a line, with its bbox, its runs, its derived
    text, its parent tag, its [line_break] flag and its text direction. *)
Record Line := mkLine {
  bbox : Rect;
  spans : list Run;
  text : pystr;
  pid : option addr;
  line_break : Z;
  is_horizontal_text : bool
}.

Definition with_line_break (l : Line) (v : Z) : Line :=
  mkLine (bbox l) (spans l) (text l) (pid l) v (is_horizontal_text l).
Definition with_pid (l : Line) (v : option addr) : Line :=
  mkLine (bbox l) (spans l) (text l) v (line_break l) (is_horizontal_text l).

(** What the module uses of [Line], [Collection], [BBox], the block and the
    layout constants. *)
Class LineOps := {
  in_same_row : Line -> Line -> bool;                (* a.in_same_row(b) *)
  Line_get_main_bbox : Line -> Line -> float -> bool; (* bool(a.get_main_bbox(b, threshold=t)) *)
  Line_add : Line -> list Run -> Line;               (* a.add(spans): the line afterwards *)
  Line_strip : Line -> Line * bool;                  (* a.strip(): the line afterwards, the result *)
  Spans_reset : Line -> list Run -> Line;            (* a.spans.reset(spans): the line afterwards *)
  get_expand_bbox : Rect -> float -> Rect;           (* a.get_expand_bbox(dt) *)
  MAJOR_DIST : float;                                (* constants.MAJOR_DIST *)
  sort_in_reading_order : (addr -> Line) -> list addr -> list addr;
                                                     (* Collection.sort_in_reading_order: the new order *)
  Collection_is_horizontal_text : (addr -> Line) -> list addr -> bool;
  Collection_bbox : (addr -> Line) -> list addr -> Rect; (* the aggregate bbox of the members *)
  update_bbox : Block -> Rect -> Block;              (* block.update_bbox(rect): the block afterwards *)
  Collection_update_bbox : Block -> Line -> Block    (* the owning block after Collection.append(line) *)
}.

Section Model.
Context {RO : RectOps} {BO : TextSpan.BaseOps} {SO : @TextSpan.StyleOps BO} {LO : LineOps}.

(** The objects a collection reaches, and the console. *)
Record World := mkWorld {
  line_at : addr -> Line;
  block_at : addr -> Block;
  span_heap : TextSpan.Heap;
  stdout : list pystr
}.

(** A [Lines] collection: its members and its owning block. *)
Record Lines := mkLines { _instances : list addr; _parent : option addr }.

Definition load_line (a : addr) : M World Line := gets (fun w => line_at w a).
Definition write_line (a : addr) (l : Line) : M World unit :=
  modify (fun w => mkWorld (upd (line_at w) a l) (block_at w) (span_heap w) (stdout w)).
Definition load_block (a : addr) : M World Block := gets (fun w => block_at w a).
Definition write_block (a : addr) (b : Block) : M World unit :=
  modify (fun w => mkWorld (line_at w) (upd (block_at w) a b) (span_heap w) (stdout w)).
Definition print (s : pystr) : M World unit :=
  modify (fun w => mkWorld (line_at w) (block_at w) (span_heap w) (stdout w ++ [s])).

(** A method of a span run in the world. *)
Definition on_spans {A} (m : M TextSpan.Heap A) : M World A :=
  fun w =>
    let '(h, r) := m (span_heap w) in
    (mkWorld (line_at w) (block_at w) h (stdout w), r).

(** Modelled from the spec: [Collection.append] adds the item at the end of
    the sequence; as the docstring of [append] has it (line 32), it also
    updates the bbox of the owning block, when there is one. *)
Definition Collection_append (self : Lines) (line : addr) : M World Lines :=
  match _parent self with
  | Some p =>
      '(b, l) ← gets (fun w => (block_at w p, line_at w line));
      write_block p (Collection_update_bbox b l)
  | None => mret tt
  end;;
  mret (mkLines (_instances self ++ [line]) (_parent self)).

(** Modelled from the spec: [Collection.reset] replaces the contents, and
    the owning block, when there is one, is given the new aggregate bbox. *)
Definition reset (self : Lines) (items : list addr) : M World Lines :=
  match _parent self with
  | Some p =>
      '(b, r) ← gets (fun w => (block_at w p, Collection_bbox (line_at w) items));
      write_block p (update_bbox b r)
  | None => mret tt
  end;;
  mret (mkLines items (_parent self)).

(** [append(self, line)], lines 31-37. *)
Definition append (self : Lines) (line : addr) : M World Lines :=
  self' ← Collection_append self line;
  match _parent self' with
  | Some p => l ← load_line line; write_line line (with_pid l (Some p))
  | None => mret tt
  end;;
  mret self'.

(** The row partition of [sort], lines 155-165; [lines_in_rows[-1][-1]]
    needs a non-empty last row. *)
Fixpoint rows_loop (L : addr -> Line) (insts : list addr)
    (lines_in_rows : list (list addr)) : result (list (list addr)) :=
  match insts with
  | [] => Ok lines_in_rows
  | line :: rest =>
      rows ←
        match last lines_in_rows with
        | None => Ok (lines_in_rows ++ [[line]])
        | Some row =>
            match last row with
            | None => Raise IndexError
            | Some prev =>
                if negb (in_same_row (L line) (L prev))
                then Ok (lines_in_rows ++ [[line]])
                else Ok (removelast lines_in_rows ++ [row ++ [line]])
            end
        end;
      rows_loop L rest rows
  end.

(** [sort(self)], lines 134-172. *)
Definition sort (self : Lines) : M World Lines :=
  L ← gets line_at;
  let insts := sort_in_reading_order L (_instances self) in
  lines_in_rows ← lift (rows_loop L insts []);
  let idx := if Collection_is_horizontal_text L insts then 0 else 3 in
  let key := fun line => getitem (bbox (L line)) idx in
  let sorted_rows :=
    map (sort_by (fun a b => (key a <? key b)%float)) lines_in_rows in
  mret (mkLines (concat sorted_rows) (_parent self)).

(** The loop of [join], lines 66-87; [lines] is the local collection. *)
Fixpoint join_loop (line_overlap_threshold line_merging_threshold : float)
    (insts : list addr) (lines : Lines) : M World Lines :=
  match insts with
  | [] => mret lines
  | line :: rest =>
      l ← load_line line;
      lines ←
        match last (_instances lines) with
        | None => append lines line
        | Some prev =>
            p ← load_line prev;
            if Line_get_main_bbox l p line_overlap_threshold then
              print (pystr_of_string "Ignore Line " ++ [34%N] ++ text l
                       ++ [34%N] ++ pystr_of_string " due to overlap");;
              mret lines
            else if negb (in_same_row l p) then append lines line
            else if py_gt (abs (x0 (bbox l) - x1 (bbox p))) line_merging_threshold
            then append lines line
            else write_line prev (Line_add p (spans l));; mret lines
        end;
      join_loop line_overlap_threshold line_merging_threshold rest lines
  end.

(** [join(self, line_overlap_threshold, line_merging_threshold)],
    lines 57-90. *)
Definition join (self : Lines) (line_overlap_threshold line_merging_threshold : float)
    : M World Lines :=
  match _instances self with
  | [] => mret self
  | _ =>
      self ← sort self;
      lines ← join_loop line_overlap_threshold line_merging_threshold
                (_instances self) (mkLines [] None);
      reset self (_instances lines)
  end.

(** [[line.strip() for line in self._instances]], line 125. *)
Fixpoint strip_lines (insts : list addr) : M World (list bool) :=
  match insts with
  | [] => mret []
  | line :: rest =>
      l ← load_line line;
      let '(l', changed) := Line_strip l in
      write_line line l';;
      status ← strip_lines rest;
      mret (changed :: status)
  end.

(** [strip(self)], lines 122-131. *)
Definition strip (self : Lines) : M World bool :=
  status ← strip_lines (_instances self);
  let stripped := existsb id status in
  (if stripped then
     match _parent self with
     | None => raise AttributeError
     | Some p =>
         '(b, r) ← gets (fun w =>
            (block_at w p, Collection_bbox (line_at w) (_instances self)));
         write_block p (update_bbox b r)
     end
   else mret tt);;
  mret stripped.

(** The inner loop of [parse_text_format], lines 214-223. *)
Fixpoint split_line_spans (rect : TextSpan.Shape) (horizontal : bool) (runs : list Run)
    (split_spans : list Run) (flag : bool) : M World (list Run * bool) :=
  match runs with
  | [] => mret (split_spans, flag)
  | span :: rest =>
      match span with
      | RImage _ => split_line_spans rect horizontal rest (split_spans ++ [span]) flag
      | RText a =>
          spans ← on_spans
            (TextSpan.call_split a [TextSpan.AShape rect; TextSpan.AVal (VBool horizontal)]);
          split_line_spans rect horizontal rest (split_spans ++ map RText spans) true
      end
  end.

(** The loop of [parse_text_format], lines 205-226. *)
Fixpoint parse_text_format_loop (rect : TextSpan.Shape) (insts : list addr) (flag : bool)
    : M World bool :=
  match insts with
  | [] => mret flag
  | line :: rest =>
      l ← load_line line;
      let intsec := rect_and (TextSpan.Shape_bbox rect) (get_expand_bbox (bbox l) MAJOR_DIST) in
      if negb (rect_bool intsec) then
        if (y1 (TextSpan.Shape_bbox rect) <? y0 (bbox l))%float then mret flag
        else parse_text_format_loop rect rest flag
      else
        '(split_spans, flag) ←
          split_line_spans rect (is_horizontal_text l) (spans l) [] flag;
        l ← load_line line;
        write_line line (Spans_reset l split_spans);;
        parse_text_format_loop rect rest flag
  end.

(** [parse_text_format(self, rect)], lines 197-228. *)
Definition parse_text_format (self : Lines) (rect : TextSpan.Shape) : M World bool :=
  parse_text_format_loop rect (_instances self) false.

(** The value [parse_line_break] gives to [line.line_break] for the line at
    index [i], lines 254-269. Lines are compared by [==] as objects, that
    is by identity. *)
Definition line_break_of (L : addr -> Line) (insts : list addr) (block : Block)
    (idx : Z) (delta_space width threshold : float) (i : nat) (line : addr) : result Z :=
  last_line ← from_option Ok (Raise IndexError) (last insts);
  if Nat.eqb line last_line then Ok 0
  else
    next ← from_option Ok (Raise IndexError) (insts !! S i);
    if in_same_row (L line) (L next) then Ok 0
    else
      ratio ← py_truediv
        (abs (getitem (block_bbox block) idx - getitem (bbox (L line)) idx) + delta_space)%float
        width;
      if py_gt ratio threshold then Ok 1
      else if negb (match py_strip (text (L next)) with [] => false | _ => true end)
      then Ok 1
      else Ok 0.

(** The loop of [parse_line_break], lines 253-269, over
    [enumerate(self._instances)]. *)
Fixpoint line_break_loop (insts : list addr) (block : Block) (idx : Z)
    (delta_space width threshold : float) (items : list (nat * addr)) : M World unit :=
  match items with
  | [] => mret tt
  | (i, line) :: rest =>
      L ← gets line_at;
      v ← lift (line_break_of L insts block idx delta_space width threshold i line);
      write_line line (with_line_break (L line) v);;
      line_break_loop insts block idx delta_space width threshold rest
  end.

(** [parse_line_break(self, line_free_space_ratio_threshold)],
    lines 231-269. *)
Definition parse_line_break (self : Lines) (line_free_space_ratio_threshold : float)
    : M World unit :=
  match _parent self with
  | None => raise AttributeError
  | Some p =>
      block ← load_block p;
      let idx0 := if block_is_horizontal_text block then 0 else 3 in
      let idx1 := (idx0 + 2) mod 4 in
      let width := abs (getitem (block_bbox block) idx1 - getitem (block_bbox block) idx0) in
      let '(delta_space, idx) :=
        if is_RIGHT (alignment block)
        then ((left_space_total block - left_space block)%float, idx0)
        else ((right_space_total block - right_space block)%float, idx1) in
      line_break_loop (_instances self) block idx delta_space width
        line_free_space_ratio_threshold (enumerate (_instances self))
  end.

End Model.

(** What [make_docx] uses besides: whether the block has tab stops. *)
Class DocOps := {
  block_tab_stops : Block -> bool           (* bool(block.tab_stops) *)
}.

(** A call that [make_docx] makes on the paragraph [p]:
    [add_stop(p, Pt(pos), Pt(current_pos))] or [line.make_docx(p)]. *)
Inductive Event := AddStop (pos current_pos : float) | MakeLine (line : addr).

Section More.
Context {BO : TextSpan.BaseOps} {LO : LineOps} {DO : DocOps}.

(** The loop of [make_docx], lines 279-293: the calls on the paragraph, in
    order. The loop ends at the line that is the last line. *)
Fixpoint make_docx_loop (L : addr -> Line) (insts : list addr) (block : Block)
    (idx0 idx1 : Z) (items : list (nat * addr)) (current_pos : float)
    : result (list Event) :=
  match items with
  | [] => Ok []
  | (i, line) :: rest =>
      let pos := (left_space block
                  + (getitem (bbox (L line)) idx0 - getitem (block_bbox block) idx0))%float in
      let stop :=
        if py_gt pos (left_space block) && block_tab_stops block
        then [AddStop pos current_pos] else [] in
      last_line ← from_option Ok (Raise IndexError) (last insts);
      if Nat.eqb line last_line then Ok (stop ++ [MakeLine line])
      else
        next ← from_option Ok (Raise IndexError) (insts !! S i);
        let current_pos :=
          if in_same_row (L line) (L next)
          then (pos + abs (getitem (bbox (L line)) idx1
                           - getitem (block_bbox block) idx0))%float
          else left_space block in
        events ← make_docx_loop L insts block idx0 idx1 rest current_pos;
        Ok (stop ++ MakeLine line :: events)
  end.

(** [make_docx(self, p)], lines 272-293: the calls it makes on [p]. *)
Definition make_docx (self : Lines) : M World (list Event) :=
  match _parent self with
  | None => raise AttributeError
  | Some p =>
      block ← load_block p;
      let idx0 := if block_is_horizontal_text block then 0 else 3 in
      let idx1 := (idx0 + 2) mod 4 in
      let current_pos := left_space block in
      L ← gets line_at;
      lift (make_docx_loop L (_instances self) block idx0 idx1
              (enumerate (_instances self)) current_pos)
  end.

End More.

End Lines.

(** ** An instance of the interfaces, for the examples

    Rectangles in the manner of PyMuPDF 1.17: an empty intersection is the
    null rectangle, and a rectangle is falsy when all its coordinates are
    zero. Characters carry one glyph and a box; a style shape is its box and
    always yields a highlight; lines are in the same row when their vertical
    extents overlap. *)

Module Demo.

Definition fmax (a b : float) : float := if (a <? b)%float then b else a.
Definition fmin (a b : float) : float := if (b <? a)%float then b else a.

Definition box_and (a b : Rect) : Rect :=
  let r := mkRect (fmax (x0 a) (x0 b)) (fmax (y0 a) (y0 b))
                  (fmin (x1 a) (x1 b)) (fmin (y1 a) (y1 b)) in
  if ((x1 r <? x0 r) || (y1 r <? y0 r))%float then Rect0 else r.

Definition box_or (a b : Rect) : Rect :=
  mkRect (fmin (x0 a) (x0 b)) (fmin (y0 a) (y0 b))
         (fmax (x1 a) (x1 b)) (fmax (y1 a) (y1 b)).

Definition box_bool (r : Rect) : bool :=
  negb ((x0 r =? 0) && (y0 r =? 0) && (x1 r =? 0) && (y1 r =? 0))%float.

Definition box_contains (a b : Rect) : bool :=
  ((x0 a <=? x0 b) && (y0 a <=? y0 b) && (x1 b <=? x1 a) && (y1 b <=? y1 a))%float.

Definition box_intersects (a b : Rect) : bool :=
  ((fmax (x0 a) (x0 b) <? fmin (x1 a) (x1 b))
   && (fmax (y0 a) (y0 b) <? fmin (y1 a) (y1 b)))%float.

Definition rects : RectOps :=
  {| rect_and := box_and; rect_or := box_or; rect_bool := box_bool;
     rect_contains := box_contains; rect_intersects := box_intersects |}.

Record Glyph := mkGlyph { glyph : N; glyph_box : Rect }.

Definition box_store (r : Rect) : PyVal :=
  VTuple [VFloat (x0 r); VFloat (y0 r); VFloat (x1 r); VFloat (y1 r)].

Definition box_init (v : option PyVal) : result Rect :=
  match v with
  | Some (VTuple [VFloat a; VFloat b; VFloat c; VFloat d]) => Ok (mkRect a b c d)
  | None => Ok Rect0
  | _ => Raise TypeError
  end.

Definition raw_bbox (raw : PyVal) : result Rect :=
  match raw with
  | VDict d => box_init (d !! "bbox"%string)
  | _ => Raise AttributeError
  end.

Definition glyph_store (g : Glyph) : PyVal :=
  VDict (<["c"%string := VStr [glyph g]]> (<["bbox"%string := box_store (glyph_box g)]> ∅)).

Definition glyph_init (raw : PyVal) : result Glyph :=
  b ← raw_bbox raw;
  c ← py_get raw "c" (VStr []);
  match c with
  | VStr [ch] => Ok (mkGlyph ch b)
  | _ => Raise TypeError
  end.

Definition base : TextSpan.BaseOps :=
  {| TextSpan.Char := Glyph;
     TextSpan.Char_c := fun g => [glyph g];
     TextSpan.Char_bbox := glyph_box;
     TextSpan.Char_init := glyph_init;
     TextSpan.Char_store := glyph_store;
     TextSpan.Shape := Rect;
     TextSpan.Shape_bbox := fun r => r;
     TextSpan.contained_in_rect := fun g r => box_contains r (glyph_box g);
     TextSpan.BBox_init := raw_bbox;
     TextSpan.BBox_store := fun r => <["bbox"%string := box_store r]> ∅;
     TextSpan.BBox_update := fun _ r => r;
     TextSpan.get_main_bbox := fun a b _ => box_intersects a b |}.

Definition highlight : TextSpan.Style := TextSpan.mkStyle 0 16776960.

Definition styles : @TextSpan.StyleOps base :=
  {| TextSpan.to_text_style := fun _ _ => Some highlight |}.

Definition rows_overlap (a b : Lines.Line) : bool :=
  ((y0 (Lines.bbox a) <? y1 (Lines.bbox b))
   && (y0 (Lines.bbox b) <? y1 (Lines.bbox a)))%float.

Definition add_runs (l : Lines.Line) (rs : list Lines.Run) : Lines.Line :=
  Lines.mkLine (Lines.bbox l) (Lines.spans l ++ rs) (Lines.text l) (Lines.pid l)
    (Lines.line_break l) (Lines.is_horizontal_text l).

Definition reset_runs (l : Lines.Line) (rs : list Lines.Run) : Lines.Line :=
  Lines.mkLine (Lines.bbox l) rs (Lines.text l) (Lines.pid l)
    (Lines.line_break l) (Lines.is_horizontal_text l).

Definition strip_text (l : Lines.Line) : Lines.Line * bool :=
  let t := py_strip (Lines.text l) in
  (Lines.mkLine (Lines.bbox l) (Lines.spans l) t (Lines.pid l)
     (Lines.line_break l) (Lines.is_horizontal_text l),
   negb (Nat.eqb (length t) (length (Lines.text l)))).

Definition expand (r : Rect) (dt : float) : Rect :=
  mkRect (x0 r - dt) (y0 r - dt) (x1 r + dt) (y1 r + dt).

Definition reading_lt (L : addr -> Lines.Line) (a b : addr) : bool :=
  let ra := Lines.bbox (L a) in
  let rb := Lines.bbox (L b) in
  ((y0 ra <? y0 rb) || ((y0 ra =? y0 rb) && (x0 ra <? x0 rb)))%float.

Definition lines : Lines.LineOps :=
  {| Lines.in_same_row := rows_overlap;
     Lines.Line_get_main_bbox := fun a b _ => box_contains (Lines.bbox b) (Lines.bbox a);
     Lines.Line_add := add_runs;
     Lines.Line_strip := strip_text;
     Lines.Spans_reset := reset_runs;
     Lines.get_expand_bbox := expand;
     Lines.MAJOR_DIST := 5;
     Lines.sort_in_reading_order := fun L l => sort_by (reading_lt L) l;
     Lines.Collection_is_horizontal_text :=
       fun L l => forallb (fun a => Lines.is_horizontal_text (L a)) l;
     Lines.Collection_bbox :=
       fun L l => fold_left (fun r a => box_or r (Lines.bbox (L a))) l Rect0;
     Lines.update_bbox := fun b r =>
       Lines.mkBlock r (Lines.block_is_horizontal_text b) (Lines.alignment b)
         (Lines.left_space b) (Lines.left_space_total b)
         (Lines.right_space b) (Lines.right_space_total b);
     Lines.Collection_update_bbox := fun b l =>
       Lines.mkBlock (box_or (Lines.block_bbox b) (Lines.bbox l))
         (Lines.block_is_horizontal_text b) (Lines.alignment b)
         (Lines.left_space b) (Lines.left_space_total b)
         (Lines.right_space b) (Lines.right_space_total b) |}.

(** A run "ab" over (0,0)-(20,10), one glyph per half. *)
Definition glyph_a : Glyph := mkGlyph 97 (mkRect 0 0 10 10).
Definition glyph_b : Glyph := mkGlyph 98 (mkRect 10 0 20 10).

Definition span_ab : @TextSpan.TextSpan base :=
  TextSpan.mkTextSpan (BO := base) (mkRect 0 0 20 10) (VInt 0) (VStr (pystr_of_string "Arial"))
    (VFloat 12) (VInt 0) ([glyph_a; glyph_b] : list Glyph) None [].

Definition span_a : @TextSpan.TextSpan base :=
  TextSpan.mkTextSpan (BO := base) (mkRect 0 0 10 10) (VInt 0) VNone (VFloat 12) (VInt 0)
    ([glyph_a] : list Glyph) None [].

(** A store with [span_ab] at address 0 and [span_a] at address 1. *)
Definition heap0 : @TextSpan.Heap base :=
  TextSpan.mkHeap (BO := base) (upd (fun _ => span_ab) 1%nat span_a) 2%nat.

Definition text_ab : pystr := pystr_of_string "ab".
Definition text_cd : pystr := pystr_of_string "cd".

(** Two lines of a block of width 100, one under the other; the right edge
    of the first is at 49, the right edge of the block at 100. *)
Definition line_upper (right : float) : Lines.Line :=
  Lines.mkLine (mkRect 0 0 right 10) [Lines.RText 0%nat] text_ab None 7 true.
Definition line_lower : Lines.Line :=
  Lines.mkLine (mkRect 0 10 60 20) [Lines.RText 1%nat] text_cd None 7 true.

Definition block0 : Lines.Block :=
  Lines.mkBlock (mkRect 0 0 100 20) true Lines.NOT_RIGHT 0 0 0 0.

Definition world (right : float) : @Lines.World base :=
  Lines.mkWorld (BO := base) (upd (fun _ => line_lower) 0%nat (line_upper right))
    (fun _ => block0) heap0 [].

Definition two_lines : Lines.Lines := Lines.mkLines [0%nat; 1%nat] (Some 0%nat).

(** Three fragments: "ab" and an inline image next to it in one row, and a
    line under them, listed out of order. *)
Definition frag_text : Lines.Line :=
  Lines.mkLine (mkRect 0 0 20 10) [Lines.RText 0%nat] text_ab None 0 true.
Definition frag_image : Lines.Line :=
  Lines.mkLine (mkRect 21 0 30 10) [Lines.RImage 5%nat] [] None 0 true.
Definition frag_below : Lines.Line :=
  Lines.mkLine (mkRect 0 12 60 22) [Lines.RText 1%nat] (pystr_of_string " cd ") None 0 true.

Definition fragments : @Lines.World base :=
  Lines.mkWorld (BO := base)
    (upd (upd (fun _ => frag_below) 1%nat frag_image) 2%nat frag_text)
    (fun _ => block0) heap0 [].

Definition three_lines : Lines.Lines := Lines.mkLines [0%nat; 1%nat; 2%nat] (Some 0%nat).

(** The blocks of the examples have tab stops. *)
Definition docs : Lines.DocOps :=
  {| Lines.block_tab_stops := fun _ => true |}.

(** A block with the left space 10, and two lines of it: the first begins 5
    to the right of the left edge of the block, the second at the edge. *)
Definition block_indented : Lines.Block :=
  Lines.mkBlock (mkRect 0 0 100 20) true Lines.NOT_RIGHT 10 10 0 0.
Definition line_indented : Lines.Line :=
  Lines.mkLine (mkRect 5 0 60 10) [Lines.RText 0%nat] text_ab (Some 0%nat) 0 true.
Definition line_flush : Lines.Line :=
  Lines.mkLine (mkRect 0 10 60 20) [Lines.RText 1%nat] text_cd (Some 0%nat) 0 true.

Definition indented : @Lines.World base :=
  Lines.mkWorld (BO := base) (upd (fun _ => line_flush) 0%nat line_indented)
    (fun _ => block_indented) heap0 [].

End Demo.

(** * Vocabulary of the facts *)

Section Judgements.
Context {S : Type}.

(** [m] keeps the invariant [I] of the store, also when it raises, and what
    it returns satisfies [Q]. *)
Definition keeps (I : S -> Prop) {X} (m : M S X) (Q : X -> Prop) : Prop :=
  forall s, I s -> I (fst (m s)) /\ forall x, snd (m s) = Ok x -> Q x.

(** [m] returns on every store; [m] raises [e] on every store. *)
Definition total {X} (m : M S X) : Prop := forall s, exists s' x, m s = (s', Ok x).
Definition raises {X} (m : M S X) (e : exn) : Prop := forall s, snd (m s) = Raise e.

End Judgements.

Section TextSpanVocabulary.
Context {BO : TextSpan.BaseOps}.
Import TextSpan.

(** The value that the property [text] reads from a run. *)
Definition text_of (s : TextSpan) : pystr :=
  match _text s with
  | Some t => t
  | None => concat (map Char_c (chars s))
  end.

(** [s'] is [s] up to the cache [_text]: it has the bbox, the characters
    and the styles of [s], its color, font, size and flags, and reads the
    same [text]. *)
Definition same_content (s s' : TextSpan) : Prop :=
  bbox s' = bbox s /\ chars s' = chars s /\ style s' = style s /\
  color s' = color s /\ font s' = font s /\ size s' = size s /\
  flags s' = flags s /\ text_of s' = text_of s.

(** [h] extends [h0]: the objects of [h0] are still there, the same up to
    their cache. *)
Definition extends (h0 h : Heap) : Prop :=
  (next h0 <= next h)%nat /\
  forall a, (a < next h0)%nat -> same_content (cells h0 a) (cells h a).

(** The keys that [store] adds to the record of the base class. *)
Definition span_keys : list string := ["color"; "font"; "size"; "flags"; "chars"]%string.

End TextSpanVocabulary.

Section LinesVocabulary.
Context {BO : TextSpan.BaseOps}.
Import Lines.

(** Every run of a line of [all] was, in the world [w0], a run of a line of
    [all]. *)
Definition runs_from (w0 : World) (all : list addr) (w : World) : Prop :=
  forall a run, In a all -> In run (spans (line_at w a)) ->
    exists a0, In a0 all /\ In run (spans (line_at w0 a0)).

(** The test [isinstance(span, ImageSpan)]. *)
Definition is_image (r : Run) : bool :=
  match r with RImage _ => true | RText _ => false end.

(** The quantities of [parse_line_break], lines 241-251: the edge that is
    compared, the width of the block, the space left on the side of that
    edge, and the free-space ratio of a line. *)
Definition break_edge (block : Block) : Z :=
  let idx0 := if block_is_horizontal_text block then 0 else 3 in
  if is_RIGHT (alignment block) then idx0 else (idx0 + 2) mod 4.

Definition break_width (block : Block) : float :=
  let idx0 := if block_is_horizontal_text block then 0 else 3 in
  abs (getitem (block_bbox block) ((idx0 + 2) mod 4) - getitem (block_bbox block) idx0).

Definition break_delta (block : Block) : float :=
  if is_RIGHT (alignment block)
  then (left_space_total block - left_space block)%float
  else (right_space_total block - right_space block)%float.

Definition free_space_ratio (block : Block) (l : Line) : float :=
  ((abs (getitem (block_bbox block) (break_edge block)
         - getitem (bbox l) (break_edge block))
    + break_delta block) / break_width block)%float.

End LinesVocabulary.


Section MoreTextSpanVocabulary.
Context {BO : TextSpan.BaseOps}.
Import TextSpan.

(** The characters that [intersect] keeps, line 169: those whose bbox is
    for the most part in the rectangle. *)
Definition kept_chars (rect : Rect) (cs : list Char) : list Char :=
  List.filter (fun char => get_main_bbox (Char_bbox char) rect 0.2) cs.

End MoreTextSpanVocabulary.

Section MoreLinesVocabulary.
Context {BO : TextSpan.BaseOps} {LO : Lines.LineOps}.
Import Lines.

(** In a list, every element is related to the one after it. *)
Fixpoint chain {A} (R : A -> A -> Prop) (l : list A) : Prop :=
  match l with
  | a :: ((b :: _) as t) => R a b /\ chain R t
  | _ => True
  end.

(** The lines of a row follow each other in one row: each is in the row of
    the line before it. *)
Definition row_chained (L : addr -> Line) (row : list addr) : Prop :=
  chain (fun a b => in_same_row (L b) (L a) = true) row.

(** A row ends where the next line is not in the row of its last line. *)
Definition rows_separated (L : addr -> Line) (rows : list (list addr)) : Prop :=
  chain (fun r1 r2 => forall a b, last r1 = Some a -> head r2 = Some b ->
                        in_same_row (L b) (L a) = false) rows.

(** No element is followed by one that is smaller than it: the next one is
    greater, or at least not smaller. *)
Definition in_order {A} (lt : A -> A -> bool) (l : list A) : Prop :=
  chain (fun a b => lt a b = true \/ lt b a = false) l.

(** The key by which [sort] orders the lines of a row, lines 168-171. *)
Definition row_key (L : addr -> Line) (insts : list addr) (line : addr) : float :=
  getitem (bbox (L line)) (if Collection_is_horizontal_text L insts then 0 else 3).

(** The message that [join] prints for a line it ignores, line 74. *)
Definition ignore_message (line_text : pystr) : pystr :=
  pystr_of_string "Ignore Line " ++ [34%N] ++ line_text
    ++ [34%N] ++ pystr_of_string " due to overlap".

(** One turn of the loop of [join], lines 67-87, on the members of the local
    collection and the world: the members and the world afterwards. *)
Definition join_step (line_overlap_threshold line_merging_threshold : float)
    (members : list addr) (line : addr) (w : World) : list addr * World :=
  match last members with
  | None => (members ++ [line], w)
  | Some prev =>
      let l := line_at w line in
      let p := line_at w prev in
      if Line_get_main_bbox l p line_overlap_threshold then
        (members,
         mkWorld (line_at w) (block_at w) (span_heap w)
           (stdout w ++ [pystr_of_string "Ignore Line " ++ [34%N] ++ text l
                           ++ [34%N] ++ pystr_of_string " due to overlap"]))
      else if negb (in_same_row l p) then (members ++ [line], w)
      else if py_gt (abs (x0 (bbox l) - x1 (bbox p))) line_merging_threshold
      then (members ++ [line], w)
      else
        (members,
         mkWorld (upd (line_at w) prev (Line_add p (spans l)))
           (block_at w) (span_heap w) (stdout w))
  end.

(** Every line is in the row of the line that follows it. *)
Fixpoint one_row (L : addr -> Line) (insts : list addr) : bool :=
  match insts with
  | line :: ((next :: _) as rest) => in_same_row (L line) (L next) && one_row L rest
  | _ => true
  end.

(** The lines that [make_docx] has made, in order, and what makes a tab
    stop admissible: the position lies right of the left space of the block
    and the block has tab stops. *)
Definition made_lines (events : list Event) : list addr :=
  flat_map (fun e => match e with MakeLine line => [line] | AddStop _ _ => [] end) events.

Definition stop_allowed {DO : DocOps} (block : Block) (e : Event) : Prop :=
  match e with
  | AddStop pos _ => py_gt pos (left_space block) = true /\ block_tab_stops block = true
  | MakeLine _ => True
  end.

End MoreLinesVocabulary.

(** * Facts *)

(** ** The monad *)

Section MonadFacts.
Context {S A B : Type}.

Lemma bind_ok (m : M S A) (f : A -> M S B) (s s' : S) (a : A) :
  m s = (s', Ok a) -> (m ≫= f) s = f a s'.
Proof. intros E. unfold mbind, M_bind. rewrite E. reflexivity. Qed.

Lemma bind_raise (m : M S A) (f : A -> M S B) (s s' : S) (e : exn) :
  m s = (s', Raise e) -> (m ≫= f) s = (s', Raise e).
Proof. intros E. unfold mbind, M_bind. rewrite E. reflexivity. Qed.

Lemma bind_snd_raise (m : M S A) (f : A -> M S B) (s : S) (e : exn) :
  snd (m s) = Raise e -> snd ((m ≫= f) s) = Raise e.
Proof.
  intros E. destruct (m s) as [s' r] eqn:Em. simpl in E. subst r.
  rewrite (bind_raise _ _ _ _ _ Em). reflexivity.
Qed.

Lemma keeps_bind (I : S -> Prop) (m : M S A) (f : A -> M S B)
    (Q : A -> Prop) (R : B -> Prop) :
  keeps I m Q -> (forall a, Q a -> keeps I (f a) R) -> keeps I (m ≫= f) R.
Proof.
  intros Hm Hf s Hs. destruct (Hm s Hs) as [Hi Hq].
  destruct (m s) as [s' r] eqn:Em. destruct r as [a|e].
  - rewrite (bind_ok _ _ _ _ _ Em). apply Hf; auto.
  - rewrite (bind_raise _ _ _ _ _ Em). split; [exact Hi | discriminate].
Qed.

Lemma keeps_ret (I : S -> Prop) (a : A) (Q : A -> Prop) :
  Q a -> keeps I (mret a) Q.
Proof. intros Ha s Hs. split; [exact Hs|]. intros x [= <-]. exact Ha. Qed.

Lemma keeps_raise (I : S -> Prop) (e : exn) (Q : A -> Prop) :
  keeps I (raise e) Q.
Proof. intros s Hs. split; [exact Hs | discriminate]. Qed.

Lemma raises_bind (m : M S A) (f : A -> M S B) (e : exn) :
  raises m e -> raises (m ≫= f) e.
Proof. intros Hm s. apply bind_snd_raise, Hm. Qed.

Lemma raises_after (m : M S A) (f : A -> M S B) (e : exn) :
  total m -> (forall a, raises (f a) e) -> raises (m ≫= f) e.
Proof.
  intros Hm Hf s. destruct (Hm s) as (s' & a & Em).
  rewrite (bind_ok _ _ _ _ _ Em). apply Hf.
Qed.

Lemma total_bind (m : M S A) (f : A -> M S B) :
  total m -> (forall a, total (f a)) -> total (m ≫= f).
Proof.
  intros Hm Hf s. destruct (Hm s) as (s' & a & Em).
  rewrite (bind_ok _ _ _ _ _ Em). apply Hf.
Qed.

Lemma total_ret (a : A) : total (mret a : M S A).
Proof. intros s. exists s, a. reflexivity. Qed.

Lemma total_gets (f : S -> A) : total (gets f).
Proof. intros s. exists s, (f s). reflexivity. Qed.

Lemma total_modify (f : S -> S) : total (modify f).
Proof. intros s. exists (f s), tt. reflexivity. Qed.

End MonadFacts.

(** ** TextSpan *)

Section TextSpanFacts.
Context {RO : RectOps} {BO : TextSpan.BaseOps} {SO : @TextSpan.StyleOps BO}.
Import TextSpan.

Lemma extends_refl (h : Heap) : extends h h.
Proof. split; [lia|]. intros a _. repeat split. Qed.

Lemma upd_same {X} (f : addr -> X) (a : addr) (v : X) : upd f a v a = v.
Proof. unfold upd. rewrite Nat.eqb_refl. reflexivity. Qed.

Lemma upd_other {X} (f : addr -> X) (a b : addr) (v : X) :
  b <> a -> upd f a v b = f b.
Proof. intros Hne. unfold upd. destruct (Nat.eqb_spec b a); congruence. Qed.

Lemma keeps_load (h0 : Heap) (a : addr) :
  keeps (extends h0) (load a) (fun _ => True).
Proof. intros h Hh. split; [exact Hh | auto]. Qed.

Lemma keeps_alloc (h0 : Heap) (s : TextSpan) :
  keeps (extends h0) (alloc s) (fun a => (next h0 <= a)%nat).
Proof.
  intros h [Hn Hc]. split.
  - split; simpl; [lia|]. intros a Ha. rewrite upd_other by lia. auto.
  - simpl. intros x [= <-]. exact Hn.
Qed.

Lemma keeps_deepcopy (h0 : Heap) (a : addr) :
  keeps (extends h0) (deepcopy a) (fun n => (next h0 <= n)%nat).
Proof.
  unfold deepcopy. eapply keeps_bind; [apply keeps_load|].
  intros s _. apply keeps_alloc.
Qed.

Lemma keeps_write_fresh (h0 : Heap) (n : addr) (s : TextSpan) :
  (next h0 <= n)%nat -> keeps (extends h0) (write n s) (fun _ => True).
Proof.
  intros Hn h [Hle Hc]. split; [|auto].
  split; simpl; [lia|]. intros a Ha. rewrite upd_other by lia. auto.
Qed.

Lemma keeps_set_bbox (h0 : Heap) (n : addr) (v : Rect) :
  (next h0 <= n)%nat -> keeps (extends h0) (set_bbox n v) (fun _ => True).
Proof.
  intros Hn. unfold set_bbox. eapply keeps_bind; [apply keeps_load|].
  intros s _. apply keeps_write_fresh, Hn.
Qed.

Lemma keeps_set_chars (h0 : Heap) (n : addr) (v : list Char) :
  (next h0 <= n)%nat -> keeps (extends h0) (set_chars n v) (fun _ => True).
Proof.
  intros Hn. unfold set_chars. eapply keeps_bind; [apply keeps_load|].
  intros s _. apply keeps_write_fresh, Hn.
Qed.

Lemma keeps_style_append (h0 : Heap) (n : addr) (v : Style) :
  (next h0 <= n)%nat -> keeps (extends h0) (style_append n v) (fun _ => True).
Proof.
  intros Hn. unfold style_append. eapply keeps_bind; [apply keeps_load|].
  intros s _. apply keeps_write_fresh, Hn.
Qed.

(** Reading [text] fills the cache of the object and nothing else. *)
Lemma keeps_text (h0 : Heap) (a : addr) :
  keeps (extends h0) (text a) (fun _ => True).
Proof.
  intros h [Hle Hc]. split; [|auto]. unfold text.
  cbv [mbind M_bind load gets]. destruct (_text (cells h a)) eqn:Hcache; [split; auto|].
  cbv [write modify mret M_ret]. simpl. split; simpl; [exact Hle|].
  intros b Hb. destruct (Nat.eq_dec b a) as [->|Hne].
  - rewrite upd_same. destruct (Hc a Hb) as (H1 & H2 & H3 & H4 & H5 & H6 & H7 & H8).
    repeat split; try assumption.
    rewrite <- H8. unfold text_of. cbn. rewrite Hcache. reflexivity.
  - rewrite upd_other by exact Hne. apply Hc, Hb.
Qed.

Lemma keeps_set_text (h0 : Heap) (n : addr) (v : pystr) (Q : unit -> Prop) :
  keeps (extends h0) (set_text n v) Q.
Proof. apply keeps_raise. Qed.

Ltac keeps_step :=
  first
    [ eapply keeps_bind;
      [ first [ apply keeps_deepcopy | apply keeps_load | apply keeps_text
              | apply (keeps_set_text _ _ _ (fun _ => True))
              | apply keeps_set_bbox; assumption
              | apply keeps_set_chars; assumption
              | apply keeps_style_append; assumption ]
      | intros ? ? ]
    | apply keeps_ret ].

Lemma keeps_left_part (h0 : Heap) (self : addr) (intsec : Rect) (pos : Z) :
  keeps (extends h0) (left_part self intsec pos) (fun n => (next h0 <= n)%nat).
Proof. unfold left_part. repeat keeps_step. assumption. Qed.

Lemma keeps_right_part (h0 : Heap) (self : addr) (intsec : Rect) (pos_end : Z) :
  keeps (extends h0) (right_part self intsec pos_end) (fun n => (next h0 <= n)%nat).
Proof. unfold right_part. repeat keeps_step. assumption. Qed.

Lemma keeps_middle_part (h0 : Heap) (self : addr) (rect : Shape) (intsec : Rect)
    (pos pos_end : Z) :
  keeps (extends h0) (middle_part self rect intsec pos pos_end)
    (fun n => (next h0 <= n)%nat).
Proof.
  unfold middle_part. repeat keeps_step.
  eapply keeps_bind with (Q := fun _ => True).
  - destruct (to_text_style rect _).
    + apply keeps_style_append. assumption.
    + apply keeps_ret. exact I.
  - intros _ _. apply keeps_ret. assumption.
Qed.

(** The steps of a part before the assignment to [text] all return. *)
Lemma total_load (a : addr) : total (load a).
Proof. apply total_gets. Qed.

Lemma total_write (a : addr) (s : TextSpan) : total (write a s).
Proof. apply total_modify. Qed.

Lemma total_deepcopy (a : addr) : total (deepcopy a).
Proof.
  unfold deepcopy. apply total_bind; [apply total_load|].
  intros s h. eexists _, _. reflexivity.
Qed.

Lemma total_set_bbox (a : addr) (v : Rect) : total (set_bbox a v).
Proof.
  unfold set_bbox. apply total_bind; [apply total_load|]. intros s. apply total_write.
Qed.

Lemma total_set_chars (a : addr) (v : list Char) : total (set_chars a v).
Proof.
  unfold set_chars. apply total_bind; [apply total_load|]. intros s. apply total_write.
Qed.

Lemma total_text (a : addr) : total (text a).
Proof.
  unfold text. apply total_bind; [apply total_load|]. intros s.
  destruct (_text s); [apply total_ret|].
  apply total_bind; [apply total_write|]. intros _. apply total_ret.
Qed.

Lemma raises_set_text (a : addr) (v : pystr) : raises (set_text a v) AttributeError.
Proof. intros h. reflexivity. Qed.

Ltac raises_step :=
  first
    [ apply raises_bind, raises_set_text
    | apply raises_after;
      [ first [ apply total_deepcopy | apply total_load | apply total_text
              | apply total_set_bbox | apply total_set_chars ]
      | intros ? ] ].

(** Every part of [split] stops at its assignment to [text]. *)
Lemma left_part_raises (self : addr) (intsec : Rect) (pos : Z) :
  raises (left_part self intsec pos) AttributeError.
Proof. unfold left_part. repeat raises_step. Qed.

Lemma middle_part_raises (self : addr) (rect : Shape) (intsec : Rect) (pos pos_end : Z) :
  raises (middle_part self rect intsec pos pos_end) AttributeError.
Proof. unfold middle_part. repeat raises_step. Qed.

Lemma right_part_raises (self : addr) (intsec : Rect) (pos_end : Z) :
  raises (right_part self intsec pos_end) AttributeError.
Proof. unfold right_part. repeat raises_step. Qed.

(** [split] on a run that the shape's bbox meets and that has characters:
    whichever part comes first raises. *)
Lemma split_raises (h : Heap) (self : addr) (rect : Shape) :
  rect_bool (rect_and (Shape_bbox rect) (bbox (cells h self))) = true ->
  chars (cells h self) <> [] ->
  snd (split self rect h) = Raise AttributeError.
Proof.
  intros Hyes Hne. unfold split.
  rewrite (bind_ok (load self) _ h h (cells h self) eq_refl).
  rewrite Hyes. cbn [negb].
  destruct (0 <? start_index _) eqn:Hpos.
  { apply bind_snd_raise, bind_snd_raise, left_part_raises. }
  rewrite (bind_ok (mret []) _ h h [] eq_refl).
  destruct (0 <? Z.of_nat (length _)) eqn:Hlen.
  { apply bind_snd_raise, bind_snd_raise, middle_part_raises. }
  rewrite (bind_ok (mret []) _ h h [] eq_refl).
  rewrite (bind_ok (load self) _ h h (cells h self) eq_refl).
  assert (Hics : index_chars (chars (cells h self)) rect = []).
  { apply Z.ltb_ge in Hlen. destruct (index_chars _ _); [reflexivity|].
    cbn [length] in Hlen. lia. }
  rewrite Hics. simpl start_index. simpl length.
  replace (Z.max (-1 + Z.of_nat 0) 0 <? Z.of_nat (length (chars (cells h self))))
    with true.
  { apply bind_snd_raise, bind_snd_raise, right_part_raises. }
  symmetry. apply Z.ltb_lt. destruct (chars (cells h self)); [congruence|].
  simpl length. lia.
Qed.

(** C6: when the bbox of the style shape does not meet the bbox of the run,
    [split] returns the one-element list holding the run itself, and the
    store is left as it was: same bbox, same characters, no style added. *)
Theorem TextSpan_split_no_intersection (h : Heap) (self : addr) (rect : Shape) :
  rect_bool (rect_and (Shape_bbox rect) (bbox (cells h self))) = false ->
  split self rect h = (h, Ok [self]).
Proof.
  intros Hno. unfold split.
  rewrite (bind_ok (load self) _ h h (cells h self) eq_refl).
  rewrite Hno. reflexivity.
Qed.

Ltac fresh_snoc :=
  cbn [app];
  match goal with
  | |- Forall _ [_] => constructor; [assumption | constructor]
  | |- Forall _ (_ ++ [_]) =>
      apply Forall_app; split; [assumption | constructor; [assumption | constructor]]
  end.

(** With an intersection: every object of the store keeps its content, and
    the parts that [split] returns are new objects. *)
Lemma split_meets (h : Heap) (self : addr) (rect : Shape) :
  rect_bool (rect_and (Shape_bbox rect) (bbox (cells h self))) = true ->
  extends h (fst (split self rect h)) /\
  forall parts, snd (split self rect h) = Ok parts ->
    Forall (fun p => (next h <= p)%nat) parts.
Proof.
  intros Hyes. unfold split.
  rewrite (bind_ok (load self) _ h h (cells h self) eq_refl).
  rewrite Hyes. cbn [negb].
  match goal with
  | |- extends h (fst (?m h)) /\ _ =>
      assert (K : keeps (extends h) m (Forall (fun p => (next h <= p)%nat)))
  end.
  2: { apply K, extends_refl. }
  eapply keeps_bind with (Q := Forall (fun p => (next h <= p)%nat)).
  { destruct (0 <? _).
    - eapply keeps_bind; [apply keeps_left_part|]. intros n Hn.
      apply keeps_ret. fresh_snoc.
    - apply keeps_ret. constructor. }
  intros l1 Hl1.
  eapply keeps_bind with (Q := Forall (fun p => (next h <= p)%nat)).
  { destruct (0 <? _).
    - eapply keeps_bind; [apply keeps_middle_part|]. intros n Hn.
      apply keeps_ret. fresh_snoc.
    - apply keeps_ret. assumption. }
  intros l2 Hl2.
  eapply keeps_bind; [apply keeps_load|]. intros s' _.
  eapply keeps_bind with (Q := Forall (fun p => (next h <= p)%nat)).
  { destruct (_ <? _).
    - eapply keeps_bind; [apply keeps_right_part|]. intros n Hn.
      apply keeps_ret. fresh_snoc.
    - apply keeps_ret. assumption. }
  intros l3 Hl3. apply keeps_ret. assumption.
Qed.

(** C9: [split] does not mutate the run it is called on. Whatever the
    outcome, a returned list or an exception, every object of the store, the
    receiver among them, has the bbox, the characters and the styles it had
    (and its other attributes; only the cache [_text] may have been filled,
    with the text it reads anyway); without intersection the result is the
    receiver itself and the store is untouched; with an intersection every
    returned part is a newly allocated copy, never the receiver. *)
Theorem TextSpan_split_receiver_unchanged (h : Heap) (self : addr) (rect : Shape) :
  (self < next h)%nat ->
  extends h (fst (split self rect h)) /\
  same_content (cells h self) (cells (fst (split self rect h)) self) /\
  (rect_bool (rect_and (Shape_bbox rect) (bbox (cells h self))) = false ->
   split self rect h = (h, Ok [self])) /\
  (rect_bool (rect_and (Shape_bbox rect) (bbox (cells h self))) = true ->
   forall parts, snd (split self rect h) = Ok parts ->
   Forall (fun p => (next h <= p)%nat /\ p <> self) parts).
Proof.
  intros Hself.
  assert (Hno : rect_bool (rect_and (Shape_bbox rect) (bbox (cells h self))) = false ->
                split self rect h = (h, Ok [self])).
  { intros E. unfold split.
    rewrite (bind_ok (load self) _ h h (cells h self) eq_refl).
    rewrite E. reflexivity. }
  assert (Hext : extends h (fst (split self rect h))).
  { destruct (rect_bool (rect_and (Shape_bbox rect) (bbox (cells h self)))) eqn:E.
    - apply split_meets, E.
    - rewrite (Hno eq_refl). apply extends_refl. }
  split; [exact Hext|]. split; [apply Hext, Hself|].
  split; [exact Hno|].
  intros Hyes parts Hok.
  eapply Forall_impl; [apply (split_meets h self rect Hyes), Hok|].
  cbn beta. intros p Hp. split; [exact Hp | lia].
Qed.

(** The index arithmetic of [split] is sound: the slices that the three
    parts take are consecutive and cover the characters of the run, whether
    the contained characters are contiguous or not. Only the assignment to
    [text] keeps [split] from returning them. *)
Lemma index_chars_bound (cs : list Char) (rect : Shape) (k : nat) :
  match List.filter (fun items : nat * Char => contained_in_rect (snd items) rect)
          (enumerate_from k cs) with
  | [] => True
  | ic :: rest => (k <= fst ic)%nat /\ (fst ic + S (length rest) <= k + length cs)%nat
  end.
Proof.
  revert k. induction cs as [|c cs IH]; intros k; simpl; [exact I|].
  specialize (IH (S k)).
  destruct (contained_in_rect c rect).
  - simpl. split; [lia|].
    destruct (List.filter _ (enumerate_from (S k) cs)) as [|ic rest]; simpl; lia.
  - destruct (List.filter _ (enumerate_from (S k) cs)) as [|ic rest]; [exact I|].
    simpl in *. lia.
Qed.

Lemma split_slices_cover (cs : list Char) (rect : Shape) :
  let ics := index_chars cs rect in
  let pos := start_index ics in
  let len := Z.of_nat (length ics) in
  let pos_end := Z.max (pos + len) 0 in
  (if 0 <? pos then py_slice cs 0 pos else [])
  ++ (if 0 <? len then py_slice cs pos pos_end else [])
  ++ (if pos_end <? Z.of_nat (length cs) then py_slice_from cs pos_end else [])
  = cs.
Proof.
  cbv zeta. unfold index_chars, enumerate.
  pose proof (index_chars_bound cs rect 0) as Hb.
  destruct (List.filter _ (enumerate_from 0 cs)) as [|[i c] rest].
  - simpl. destruct cs; reflexivity.
  - destruct Hb as [_ Hb]. cbn [fst start_index length] in *.
    set (n := length rest) in *.
    assert (Hlen : (0 <? Z.of_nat (S n)) = true) by (apply Z.ltb_lt; lia).
    rewrite Hlen.
    replace (Z.max (Z.of_nat i + Z.of_nat (S n)) 0) with (Z.of_nat (i + S n)) by lia.
    unfold py_slice, py_slice_from, slice_bound.
    replace (0 <? 0) with false by reflexivity.
    replace (Z.of_nat i <? 0) with false by (symmetry; apply Z.ltb_ge; lia).
    replace (Z.of_nat (i + S n) <? 0) with false by (symmetry; apply Z.ltb_ge; lia).
    rewrite !Z.min_l by lia. rewrite Z.sub_0_r.
    replace (Z.to_nat (Z.of_nat (i + S n) - Z.of_nat i)) with (S n) by lia.
    rewrite !Nat2Z.id. change (Z.to_nat 0) with 0%nat. rewrite drop_0.
    assert (Hmid : take (S n) (drop i cs) ++ drop (i + S n) cs = drop i cs).
    { rewrite <- (drop_drop cs (S n) i). apply take_drop. }
    destruct (0 <? Z.of_nat i) eqn:Hi; destruct (_ <? Z.of_nat (length cs)) eqn:He.
    + rewrite Hmid. apply take_drop.
    + apply Z.ltb_ge in He. rewrite (drop_ge cs (i + S n)) in Hmid by lia.
      rewrite Hmid. apply take_drop.
    + apply Z.ltb_ge in Hi. assert (Ei : i = 0%nat) by lia. subst i.
      rewrite drop_0 in Hmid. exact Hmid.
    + apply Z.ltb_ge in Hi. apply Z.ltb_ge in He. assert (Ei : i = 0%nat) by lia. subst i.
      rewrite (drop_ge cs (0 + S n)) in Hmid by lia. rewrite drop_0 in Hmid. exact Hmid.
Qed.

(** [intersect] with a rectangle that neither contains nor meets the bbox
    of the run calls [TextSpan()], which [__init__] does not accept. *)
Lemma intersect_no_overlap_raises (h : Heap) (self : addr) (rect : Rect) :
  rect_contains rect (bbox (cells h self)) = false ->
  rect_intersects rect (bbox (cells h self)) = false ->
  intersect self rect h = (h, Raise TypeError).
Proof.
  intros Hc Hi. unfold intersect.
  rewrite (bind_ok (load self) _ h h (cells h self) eq_refl).
  rewrite Hc, Hi. reflexivity.
Qed.

(** [intersect] with a rectangle that contains the bbox of the run returns
    a new object with the attributes of the run. *)
Lemma intersect_contained_copies (h : Heap) (self : addr) (rect : Rect) :
  rect_contains rect (bbox (cells h self)) = true ->
  intersect self rect h =
    (mkHeap (upd (cells h) (next h) (cells h self)) (S (next h)), Ok (next h)).
Proof.
  intros Hc. unfold intersect.
  rewrite (bind_ok (load self) _ h h (cells h self) eq_refl).
  rewrite Hc. reflexivity.
Qed.

Lemma map_result_roundtrip {X Y} (f : X -> Y) (g : Y -> result X) (xs : list X) :
  (forall x, g (f x) = Ok x) -> map_result g (map f xs) = Ok xs.
Proof.
  intros Hgf. induction xs as [|x xs IH]; [reflexivity|].
  simpl. rewrite Hgf. cbn. rewrite IH. reflexivity.
Qed.

(** C5: a run that is stored and constructed again from the stored record
    has the bbox, color, font, size, flags and characters of the run, given
    that a character constructed from its stored record is the character,
    and that the constructor of the base class gives back the bbox from a
    record that agrees with the base class's own on every key but the ones
    that [store] adds. *)
Theorem TextSpan_store_roundtrip (s : TextSpan) :
  (forall ch, Char_init (Char_store ch) = Ok ch) ->
  (forall (b : Rect) (m : gmap string PyVal),
     (forall k, ~ In k span_keys -> m !! k = BBox_store b !! k) ->
     BBox_init (VDict m) = Ok b) ->
  __init__ (VDict (store s)) =
    Ok (mkTextSpan (bbox s) (color s) (font s) (size s) (flags s) (chars s) None []).
Proof.
  intros HChar HBBox. unfold __init__.
  rewrite (HBBox (bbox s)).
  2: { intros k Hk. unfold store, dict_update.
       rewrite lookup_union_r; [reflexivity|].
       unfold span_keys in Hk. simpl in Hk.
       rewrite !lookup_insert_ne by (intros <-; tauto). apply lookup_empty. }
  unfold store, dict_update, py_get. cbn.
  rewrite !lookup_union_l' by (eexists; reflexivity).
  repeat (rewrite lookup_insert_eq || rewrite lookup_insert_ne by done).
  cbn. rewrite map_result_roundtrip by exact HChar. reflexivity.
Qed.

End TextSpanFacts.

(** ** Lines *)

Section ListFacts.
Context {A : Type}.

Lemma insert_by_perm (lt : A -> A -> bool) (x : A) (l : list A) :
  Permutation (insert_by lt x l) (x :: l).
Proof.
  induction l as [|y l IH]; simpl; [reflexivity|].
  destruct (lt x y); [reflexivity|].
  rewrite IH. apply perm_swap.
Qed.

Lemma sort_by_perm (lt : A -> A -> bool) (l : list A) :
  Permutation (sort_by lt l) l.
Proof.
  unfold sort_by.
  assert (H : forall acc, Permutation (fold_left (fun acc x => insert_by lt x acc) l acc)
                            (acc ++ l)).
  { induction l as [|x l IH]; intros acc; simpl.
    - rewrite app_nil_r. reflexivity.
    - rewrite IH, insert_by_perm. apply Permutation_middle. }
  apply (H []).
Qed.

Lemma concat_map_perm (f : list A -> list A) (rows : list (list A)) :
  (forall row, Permutation (f row) row) ->
  Permutation (concat (map f rows)) (concat rows).
Proof.
  intros Hf. induction rows as [|row rows IH]; simpl; [reflexivity|].
  rewrite Hf, IH. reflexivity.
Qed.

Lemma last_split (l : list A) (x : A) :
  last l = Some x -> l = removelast l ++ [x].
Proof.
  intros H. apply last_Some in H as [l' ->].
  rewrite removelast_last. reflexivity.
Qed.

End ListFacts.

Section LinesFacts.
Context {RO : RectOps} {BO : TextSpan.BaseOps} {SO : @TextSpan.StyleOps BO}
  {LO : Lines.LineOps}.
Import Lines.

(** The row partition never fails, keeps the rows non-empty and, read row
    after row, lists the lines in the order it was given them. *)
Lemma rows_loop_concat (L : addr -> Line) (insts : list addr) (rows : list (list addr)) :
  Forall (fun row => row <> []) rows ->
  exists rows', rows_loop L insts rows = Ok rows' /\
    Forall (fun row => row <> []) rows' /\
    concat rows' = concat rows ++ insts.
Proof.
  revert rows. induction insts as [|line rest IH]; intros rows Hne.
  - exists rows. rewrite app_nil_r. auto.
  - cbn [rows_loop].
    assert (Hnew : Forall (fun row : list addr => row <> []) (rows ++ [[line]])).
    { apply Forall_app. split; [exact Hne|]. constructor; [discriminate|constructor]. }
    assert (Hcat : concat (rows ++ [[line]]) ++ rest = concat rows ++ line :: rest).
    { rewrite concat_app. simpl. rewrite <- !app_assoc. reflexivity. }
    destruct (last rows) as [row|] eqn:Hlast.
    + pose proof (last_split _ _ Hlast) as Hrows.
      assert (Hrow : row <> []).
      { rewrite Hrows in Hne. apply Forall_app in Hne as [_ Hne].
        inversion Hne; assumption. }
      destruct (last row) as [prev|] eqn:Hprev.
      2: { apply last_None in Hprev. contradiction. }
      destruct (negb (in_same_row (L line) (L prev))).
      * cbn. destruct (IH _ Hnew) as (rows' & E & Hne' & Hc).
        exists rows'. rewrite Hc, Hcat. auto.
      * cbn.
        assert (Hnew' : Forall (fun row : list addr => row <> [])
                          (removelast rows ++ [row ++ [line]])).
        { rewrite Hrows in Hne. apply Forall_app in Hne as [Hne _].
          apply Forall_app. split; [exact Hne|].
          constructor; [|constructor]. destruct row; discriminate. }
        destruct (IH _ Hnew') as (rows' & E & Hne' & Hc).
        exists rows'. split; [exact E|]. split; [exact Hne'|].
        rewrite Hc. rewrite Hrows at 2. rewrite !concat_app. simpl.
        rewrite !app_nil_r, <- !app_assoc. reflexivity.
    + cbn. destruct (IH _ Hnew) as (rows' & E & Hne' & Hc).
      exists rows'. rewrite Hc, Hcat. auto.
Qed.

(** [sort] returns and leaves the world as it is; the collection then holds
    the rows of the reading order, each sorted by the coordinate of the text
    direction. *)
Lemma sort_returns (self : Lines) (w : World) :
  exists rows,
    concat rows = sort_in_reading_order (line_at w) (_instances self) /\
    sort self w =
      (w, Ok (mkLines
                (concat (map (sort_by (fun a b =>
                   (getitem (bbox (line_at w a))
                      (if Collection_is_horizontal_text (line_at w)
                            (sort_in_reading_order (line_at w) (_instances self))
                       then 0 else 3)
                    <? getitem (bbox (line_at w b))
                      (if Collection_is_horizontal_text (line_at w)
                            (sort_in_reading_order (line_at w) (_instances self))
                       then 0 else 3))%float)) rows))
                (_parent self))).
Proof.
  unfold sort.
  rewrite (bind_ok (gets line_at) _ w w (line_at w) eq_refl).
  destruct (rows_loop_concat (line_at w)
              (sort_in_reading_order (line_at w) (_instances self)) [])
    as (rows & E & _ & Hc); [constructor|].
  rewrite (bind_ok (lift _) _ w w rows); [|unfold lift; rewrite E; reflexivity].
  exists rows. split; [exact Hc | reflexivity].
Qed.

Lemma sorted_rows_perm (lt : addr -> addr -> bool) (rows : list (list addr)) :
  Permutation (concat (map (sort_by lt) rows)) (concat rows).
Proof. apply concat_map_perm. intros row. apply sort_by_perm. Qed.

(** C10: [sort] returns, leaves every object as it is, and the collection
    holds afterwards a permutation of the lines it held: no line is dropped
    or duplicated, given that [sort_in_reading_order] only reorders. *)
Theorem Lines_sort_permutation (self : Lines) (w : World) :
  (forall L l, Permutation (sort_in_reading_order L l) l) ->
  exists self', sort self w = (w, Ok self') /\
    Permutation (_instances self') (_instances self) /\
    _parent self' = _parent self.
Proof.
  intros Hsort. destruct (sort_returns self w) as (rows & Hc & E).
  eexists. split; [exact E|]. split; [|reflexivity].
  cbn [_instances]. rewrite sorted_rows_perm, Hc. apply Hsort.
Qed.

Lemma append_no_parent (lines : Lines) (line : addr) (w : World) :
  _parent lines = None ->
  append lines line w = (w, Ok (mkLines (_instances lines ++ [line]) None)).
Proof.
  intros Hp. unfold append, Collection_append. cbn [_parent]. rewrite Hp. reflexivity.
Qed.

Section Join.
Variables (w0 : World) (all : list addr) (t1 t2 : float).
Hypothesis Line_add_spans : forall l rs, spans (Line_add l rs) = spans l ++ rs.

(** The loop of [join] returns; the local collection grows by at most one
    line of the input per step, and runs only move between lines. *)
Lemma join_loop_spec (insts : list addr) :
  forall (lines : Lines) (w : World),
  _parent lines = None ->
  incl insts all -> incl (_instances lines) all -> runs_from w0 all w ->
  exists w' lines',
    join_loop t1 t2 insts lines w = (w', Ok lines') /\
    incl (_instances lines') all /\
    runs_from w0 all w' /\
    (length (_instances lines') <= length (_instances lines) + length insts)%nat /\
    block_at w' = block_at w /\ span_heap w' = span_heap w.
Proof.
  induction insts as [|line rest IH]; intros lines w Hpar Hin Hlines Hruns.
  - exists w, lines. cbn. repeat split; auto. lia.
  - assert (Hline : In line all) by (apply Hin; left; reflexivity).
    assert (Hrest : incl rest all) by (intros a Ha; apply Hin; right; exact Ha).
    assert (Happ : incl (_instances lines ++ [line]) all).
    { intros a Ha. apply in_app_or in Ha as [Ha|[<-|[]]]; auto. }
    cbn [join_loop].
    rewrite (bind_ok (load_line line) _ w w (line_at w line) eq_refl).
    assert (Hgo_append :
      exists w' lines',
        join_loop t1 t2 rest (mkLines (_instances lines ++ [line]) None) w
          = (w', Ok lines') /\
        incl (_instances lines') all /\ runs_from w0 all w' /\
        (length (_instances lines') <= length (_instances lines) + length (line :: rest))%nat /\
        block_at w' = block_at w /\ span_heap w' = span_heap w).
    { destruct (IH (mkLines (_instances lines ++ [line]) None) w eq_refl Hrest Happ Hruns)
        as (w' & lines' & E & H1 & H2 & H3 & H4 & H5).
      exists w', lines'. cbn [_instances] in H3. rewrite length_app in H3.
      cbn [length] in *. repeat split; auto. lia. }
    destruct (last (_instances lines)) as [prev|] eqn:Hlast.
    2: { unfold mbind at 1, M_bind at 1.
         rewrite (append_no_parent lines line w Hpar). exact Hgo_append. }
    assert (Hprev : In prev all).
    { apply Hlines. apply last_Some in Hlast as [l' ->].
      apply in_or_app. right. left. reflexivity. }
    rewrite (bind_ok (load_line prev ≫= _) _ w
               (if Line_get_main_bbox (line_at w line) (line_at w prev) t1
                then mkWorld (line_at w) (block_at w) (span_heap w)
                       (stdout w ++ [pystr_of_string "Ignore Line " ++ [34%N]
                          ++ text (line_at w line) ++ [34%N]
                          ++ pystr_of_string " due to overlap"])
                else if negb (in_same_row (line_at w line) (line_at w prev)) then w
                else if py_gt (abs (x0 (bbox (line_at w line)) - x1 (bbox (line_at w prev))))
                          t2 then w
                else mkWorld (upd (line_at w) prev
                                (Line_add (line_at w prev) (spans (line_at w line))))
                       (block_at w) (span_heap w) (stdout w))
               (if Line_get_main_bbox (line_at w line) (line_at w prev) t1 then lines
                else if negb (in_same_row (line_at w line) (line_at w prev))
                then mkLines (_instances lines ++ [line]) None
                else if py_gt (abs (x0 (bbox (line_at w line)) - x1 (bbox (line_at w prev))))
                          t2 then mkLines (_instances lines ++ [line]) None
                else lines)).
    2: { rewrite (bind_ok (load_line prev) _ w w (line_at w prev) eq_refl).
         destruct (Line_get_main_bbox _ _ _); [reflexivity|].
         destruct (negb _); [apply append_no_parent, Hpar|].
         destruct (py_gt _ _); [apply append_no_parent, Hpar|]. reflexivity. }
    destruct (Line_get_main_bbox _ _ _).
    { (* the line is ignored *)
      match goal with
      | |- context [join_loop _ _ _ _ ?w1] =>
          destruct (IH lines w1 Hpar Hrest Hlines Hruns)
            as (w' & lines' & E & H1 & H2 & H3 & H4 & H5)
      end.
      exists w', lines'. cbn [length]. repeat split; auto. lia. }
    destruct (negb _); [exact Hgo_append|].
    destruct (py_gt _ _); [exact Hgo_append|].
    (* the runs of the line go to the previous line *)
    assert (Hruns' : runs_from w0 all
              (mkWorld (upd (line_at w) prev
                          (Line_add (line_at w prev) (spans (line_at w line))))
                 (block_at w) (span_heap w) (stdout w))).
    { intros a run Ha. cbn [line_at]. unfold upd.
      destruct (Nat.eqb_spec a prev) as [->|Hne]; [|apply Hruns, Ha].
      rewrite Line_add_spans. intros Hr. apply in_app_or in Hr as [Hr|Hr].
      - apply (Hruns prev); assumption.
      - apply (Hruns line); assumption. }
    destruct (IH lines _ Hpar Hrest Hlines Hruns')
      as (w' & lines' & E & H1 & H2 & H3 & H4 & H5).
    exists w', lines'. cbn [length]. repeat split; auto. lia.
Qed.

End Join.

Lemma reset_spec (self : Lines) (items : list addr) (w : World) :
  exists w', reset self items w = (w', Ok (mkLines items (_parent self))) /\
    line_at w' = line_at w.
Proof.
  unfold reset. destruct (_parent self) as [p|].
  - eexists. split; reflexivity.
  - exists w. split; reflexivity.
Qed.

(** C7: [join] returns; the collection then holds at most as many lines as
    before, each of them one of the lines it held; every run of a line of
    the result was a run of some line of the input; and on an empty
    collection nothing changes. This holds given that
    [sort_in_reading_order] only reorders and that [add] appends the given
    runs to the runs of the line. *)
Theorem Lines_join_spec (self : Lines) (w : World) (t1 t2 : float) :
  (forall L l, Permutation (sort_in_reading_order L l) l) ->
  (forall l rs, spans (Line_add l rs) = spans l ++ rs) ->
  exists w' self',
    join self t1 t2 w = (w', Ok self') /\
    (length (_instances self') <= length (_instances self))%nat /\
    (forall line, In line (_instances self') -> In line (_instances self)) /\
    (forall line run,
       In line (_instances self') -> In run (spans (line_at w' line)) ->
       exists line0, In line0 (_instances self) /\ In run (spans (line_at w line0))) /\
    (_instances self = [] -> w' = w /\ self' = self).
Proof.
  intros Hsort Hadd. unfold join.
  destruct (_instances self) as [|a0 insts0] eqn:Hinsts.
  { exists w, self. rewrite Hinsts. repeat split; auto.
    intros line run []. }
  rewrite <- Hinsts.
  destruct (sort_returns self w) as (rows & Hc & Es).
  match type of Es with _ = (_, Ok ?x) => set (self1 := x) in * end.
  assert (Hperm : Permutation (_instances self1) (_instances self)).
  { subst self1. cbn [_instances]. rewrite sorted_rows_perm, Hc. apply Hsort. }
  rewrite (bind_ok _ _ _ _ _ Es).
  destruct (join_loop_spec w (_instances self1) t1 t2 Hadd (_instances self1)
              (mkLines [] None) w eq_refl (incl_refl _) (incl_nil_l _))
    as (w1 & lines1 & El & Hincl & Hruns & Hlen & _ & _).
  { intros a run Ha Hr. exists a. auto. }
  rewrite (bind_ok _ _ _ _ _ El).
  destruct (reset_spec self1 (_instances lines1) w1) as (w2 & Er & HL).
  exists w2, (mkLines (_instances lines1) (_parent self1)).
  split; [exact Er|]. cbn [_instances length] in *.
  split; [rewrite <- (Permutation_length Hperm); lia|].
  split; [intros line Hl; eapply Permutation_in; [exact Hperm | apply Hincl, Hl]|].
  split.
  - intros line run Hl Hr. rewrite HL in Hr.
    destruct (Hruns line run (Hincl _ Hl) Hr) as (line0 & H0 & Hr0).
    exists line0. split; [eapply Permutation_in; [exact Hperm | exact H0] | exact Hr0].
  - rewrite Hinsts. discriminate.
Qed.

(** The comprehension of [strip] returns, with one report per line, and
    touches lines only. *)
Lemma strip_lines_spec (insts : list addr) :
  forall w, exists w' status,
    strip_lines insts w = (w', Ok status) /\
    length status = length insts /\
    block_at w' = block_at w /\ span_heap w' = span_heap w /\ stdout w' = stdout w.
Proof.
  induction insts as [|line rest IH]; intros w.
  - exists w, []. repeat split.
  - cbn [strip_lines].
    rewrite (bind_ok (load_line line) _ w w (line_at w line) eq_refl).
    destruct (Line_strip (line_at w line)) as [l' changed].
    rewrite (bind_ok (write_line line l') _ w _ tt eq_refl).
    match goal with
    | |- context [strip_lines rest ≫= _] =>
        match goal with
        | |- exists _ _, _ ?w1 = _ /\ _ =>
            destruct (IH w1) as (w' & status & E & Hlen & Hb & Hs & Ho)
        end
    end.
    rewrite (bind_ok _ _ _ _ _ E).
    exists w', (changed :: status). cbn [length]. repeat split; auto.
Qed.

(** On distinct lines the comprehension of [strip] strips each member once,
    from its state at the call, and reports in order. *)
Lemma strip_lines_effect (insts : list addr) :
  List.NoDup insts ->
  forall w w' status,
  strip_lines insts w = (w', Ok status) ->
  status = map (fun a => snd (Line_strip (line_at w a))) insts /\
  (forall a, In a insts -> line_at w' a = fst (Line_strip (line_at w a))) /\
  (forall a, ~ In a insts -> line_at w' a = line_at w a).
Proof.
  induction insts as [|line rest IH]; intros Hnd w w' status H.
  - cbn in H. injection H as <- <-. repeat split; auto. intros a [].
  - apply List.NoDup_cons_iff in Hnd as [Hnotin Hnd].
    cbn [strip_lines] in H.
    rewrite (bind_ok (load_line line) _ w w (line_at w line) eq_refl) in H.
    destruct (Line_strip (line_at w line)) as [l' changed] eqn:El.
    rewrite (bind_ok (write_line line l') _ w _ tt eq_refl) in H.
    match type of H with
    | context [strip_lines rest ≫= _] =>
        match type of H with
        | _ ?w1 = _ =>
            destruct (strip_lines_spec rest w1) as (w2 & st & E & _);
            rewrite (bind_ok _ _ _ _ _ E) in H;
            destruct (IH Hnd _ _ _ E) as (Hst & Hin & Hout)
        end
    end.
    cbn in H. injection H as <- <-. cbn [line_at] in Hst, Hin, Hout.
    assert (Hrest : forall a, In a rest -> upd (line_at w) line l' a = line_at w a).
    { intros a Ha. apply upd_other. intros ->. exact (Hnotin Ha). }
    split; [|split].
    + cbn [map]. rewrite El. cbn [snd]. f_equal. rewrite Hst.
      apply map_ext_in. intros a Ha. rewrite (Hrest a Ha). reflexivity.
    + intros a [<-|Ha].
      * rewrite (Hout line Hnotin), upd_same, El. reflexivity.
      * rewrite (Hin a Ha), (Hrest a Ha). reflexivity.
    + intros a Ha. rewrite Hout by (intros Hr; apply Ha; right; exact Hr).
      apply upd_other. intros ->. apply Ha. left. reflexivity.
Qed.

(** A line that reports a change when it is stripped in the state of the
    call makes the comprehension report one: its first report is made in
    that state. *)
Lemma strip_lines_reports (insts : list addr) :
  forall w w' status,
  strip_lines insts w = (w', Ok status) ->
  (forall a, In a insts -> snd (Line_strip (line_at w a)) = true ->
     existsb id status = true) /\
  (forall a, ~ In a insts -> line_at w' a = line_at w a).
Proof.
  induction insts as [|line rest IH]; intros w w' status H.
  - cbn in H. injection H as <- <-. split; [intros a []|reflexivity].
  - cbn [strip_lines] in H.
    rewrite (bind_ok (load_line line) _ w w (line_at w line) eq_refl) in H.
    destruct (Line_strip (line_at w line)) as [l' changed] eqn:El.
    rewrite (bind_ok (write_line line l') _ w _ tt eq_refl) in H.
    match type of H with
    | _ ?w1 = _ =>
        destruct (strip_lines_spec rest w1) as (w2 & st & E & _);
        rewrite (bind_ok _ _ _ _ _ E) in H;
        destruct (IH _ _ _ E) as (Hrep & Hout)
    end.
    cbn in H. injection H as <- <-. cbn [line_at] in Hrep, Hout. split.
    + intros a Ha Hyes. cbn [existsb id].
      destruct (Nat.eq_dec a line) as [->|Hne].
      * rewrite El in Hyes. cbn [snd] in Hyes. rewrite Hyes. reflexivity.
      * destruct Ha as [->|Ha]; [contradiction|].
        rewrite (Hrep a Ha); [apply orb_true_r|].
        rewrite upd_other by exact Hne. exact Hyes.
    + intros a Ha. rewrite Hout by (intros Hr; apply Ha; right; exact Hr).
      apply upd_other. intros ->. apply Ha. left. reflexivity.
Qed.

(** C8: [strip] returns true exactly when one of the lines reported a
    change. [status] holds the reports of the calls of [Line.strip], in
    order: a line that reports a change in the state of the call makes one
    of them true, and on distinct lines they are the reports of the lines
    in that state, each line left as [Line.strip] makes it; no other line
    is touched. Only when a report is true is the owning block given the
    aggregate bbox of the collection; when no line reports a change, and so
    on the empty collection, [strip] returns false and the blocks are as
    they were. *)
Theorem Lines_strip_spec (self : Lines) (w : World) :
  exists w1 status,
    strip_lines (_instances self) w = (w1, Ok status) /\
    length status = length (_instances self) /\
    block_at w1 = block_at w /\
    (forall a, In a (_instances self) -> snd (Line_strip (line_at w a)) = true ->
       existsb id status = true) /\
    (List.NoDup (_instances self) ->
       status = map (fun a => snd (Line_strip (line_at w a))) (_instances self) /\
       forall a, In a (_instances self) ->
         line_at w1 a = fst (Line_strip (line_at w a))) /\
    (forall a, ~ In a (_instances self) -> line_at w1 a = line_at w a) /\
    (existsb id status = false -> strip self w = (w1, Ok false)) /\
    (forall p, _parent self = Some p -> existsb id status = true ->
       strip self w =
         (mkWorld (line_at w1)
            (upd (block_at w1) p
               (update_bbox (block_at w1 p)
                  (Collection_bbox (line_at w1) (_instances self))))
            (span_heap w1) (stdout w1),
          Ok true)) /\
    (_instances self = [] -> strip self w = (w, Ok false)).
Proof.
  destruct (strip_lines_spec (_instances self) w)
    as (w1 & status & E & Hlen & Hb & _ & _).
  destruct (strip_lines_reports _ _ _ _ E) as (Hrep & Hout).
  exists w1, status. split; [exact E|]. split; [exact Hlen|]. split; [exact Hb|].
  split; [exact Hrep|]. split.
  { intros Hnd. destruct (strip_lines_effect _ Hnd _ _ _ E) as (Hst & Hin & _).
    split; [exact Hst | exact Hin]. }
  split; [exact Hout|].
  unfold strip. rewrite (bind_ok _ _ _ _ _ E).
  split; [|split].
  - intros Hno. rewrite Hno. reflexivity.
  - intros p Hp Hyes. rewrite Hyes, Hp. reflexivity.
  - intros Hnil. rewrite Hnil in E, Hlen. cbn in E. injection E as <- <-. reflexivity.
Qed.

Section LineBreak.
Variables (w : World) (insts : list addr) (block : Block) (idx : Z)
  (delta_space width threshold : float).
Hypothesis width_nonzero : (width =? 0)%float = false.

Abbreviation value_of L := (line_break_of L insts block idx delta_space width threshold).
Abbreviation loop := (line_break_loop insts block idx delta_space width threshold).

(** The value for a line depends on the line and on the next one only. *)
Lemma line_break_of_ext (L L' : addr -> Line) (i : nat) (line : addr) :
  L line = L' line ->
  (forall next, insts !! S i = Some next -> L next = L' next) ->
  value_of L i line = value_of L' i line.
Proof.
  intros Hl Hn. unfold line_break_of.
  destruct (last insts) as [last_line|]; [|reflexivity]. cbn.
  destruct (Nat.eqb line last_line); [reflexivity|].
  destruct (insts !! S i) as [next|] eqn:Hnext; [|reflexivity]. cbn.
  rewrite Hl, (Hn next eq_refl). reflexivity.
Qed.

(** With a block of non-zero width, a value is found for every line. *)
Lemma line_break_of_returns (L : addr -> Line) (i : nat) (line : addr) :
  insts !! i = Some line -> exists v, value_of L i line = Ok v.
Proof.
  intros Hi. unfold line_break_of.
  pose proof (lookup_lt_Some _ _ _ Hi) as Hlt.
  destruct (last insts) as [last_line|] eqn:Hlast.
  2: { apply last_None in Hlast. subst insts. discriminate. }
  cbn. destruct (Nat.eqb_spec line last_line) as [|Hne]; [eexists; reflexivity|].
  destruct (insts !! S i) as [next|] eqn:Hnext.
  2: { exfalso. apply Hne. apply lookup_ge_None in Hnext.
       rewrite last_lookup in Hlast.
       replace (Init.Nat.pred (length insts)) with i in Hlast by lia.
       congruence. }
  cbn. destruct (in_same_row (L line) (L next)); [eexists; reflexivity|].
  unfold py_truediv. rewrite width_nonzero. cbn.
  repeat match goal with
         | |- context [if ?c then _ else _] => destruct c
         end; eexists; reflexivity.
Qed.

(** The loop over the lines that follow [pre]: it returns, and every line
    it visits gets the value computed in the world before the loop. *)
Lemma line_break_loop_spec (rest : list addr) :
  forall (pre : list addr) (wc : World),
  insts = pre ++ rest ->
  NoDup rest ->
  (forall a, In a rest -> line_at wc a = line_at w a) ->
  exists w',
    loop (enumerate_from (length pre) rest) wc = (w', Ok tt) /\
    (forall a, ~ In a rest -> line_at w' a = line_at wc a) /\
    (forall j a, rest !! j = Some a ->
       exists v, value_of (line_at w) (length pre + j)%nat a = Ok v /\
                 line_at w' a = with_line_break (line_at w a) v) /\
    block_at w' = block_at wc /\ span_heap w' = span_heap wc /\ stdout w' = stdout wc.
Proof.
  induction rest as [|line rest IH]; intros pre wc Hsplit Hnd Hsame.
  - exists wc. cbn. repeat split; auto. intros j a Hj. discriminate.
  - cbn [enumerate_from line_break_loop].
    rewrite (bind_ok (gets line_at) _ wc wc (line_at wc) eq_refl).
    assert (Hk : insts !! length pre = Some line).
    { rewrite Hsplit. rewrite lookup_app_r by lia. rewrite Nat.sub_diag. reflexivity. }
    assert (Hval : value_of (line_at wc) (length pre) line
                   = value_of (line_at w) (length pre) line).
    { apply line_break_of_ext.
      - apply Hsame. left. reflexivity.
      - intros next Hnext. apply Hsame. right.
        rewrite Hsplit in Hnext. rewrite lookup_app_r in Hnext by lia.
        replace (S (length pre) - length pre)%nat with 1%nat in Hnext by lia.
        cbn in Hnext. destruct rest as [|next' rest']; [discriminate|].
        cbn in Hnext. injection Hnext as <-. left. reflexivity. }
    destruct (line_break_of_returns (line_at w) (length pre) line Hk) as [v Hv].
    rewrite (bind_ok (lift _) _ wc wc v); [|unfold lift; rewrite Hval, Hv; reflexivity].
    rewrite (bind_ok (write_line line _) _ wc _ tt eq_refl).
    apply NoDup_cons in Hnd as [Hnotin Hnd']. rewrite list_elem_of_In in Hnotin.
    match goal with
    | |- exists _, _ ?w1 = _ /\ _ =>
        destruct (IH (pre ++ [line]) w1) as (w' & E & Hout & Hin & Hb & Hs & Ho)
    end.
    { rewrite <- app_assoc. exact Hsplit. }
    { exact Hnd'. }
    { intros a Ha. cbn [line_at]. rewrite upd_other.
      - apply Hsame. right. exact Ha.
      - intros ->. contradiction. }
    rewrite length_app in E, Hin. cbn [length] in E, Hin.
    replace (length pre + 1)%nat with (S (length pre)) in E by lia.
    exists w'. split; [exact E|]. split; [|split].
    + intros a Ha. rewrite Hout.
      * cbn [line_at]. apply upd_other. intros ->. apply Ha. left. reflexivity.
      * intros Hr. apply Ha. right. exact Hr.
    + intros [|j] a Hj.
      * cbn in Hj. injection Hj as <-. exists v. rewrite Nat.add_0_r.
        split; [exact Hv|]. rewrite Hout by exact Hnotin.
        cbn [line_at]. rewrite upd_same. f_equal. apply Hsame. left. reflexivity.
      * cbn in Hj. destruct (Hin j a Hj) as (v' & Hv' & Hw').
        exists v'. replace (length pre + S j)%nat with (length pre + 1 + j)%nat by lia.
        auto.
    + cbn in Hb, Hs, Ho. auto.
Qed.

End LineBreak.

(** [parse_line_break] on a collection of distinct lines owned by a block
    of non-zero width: it returns, and every line is the line it was, with
    [line_break] set to the value that [line_break_of] computes for it in
    the world before the call. *)
Lemma parse_line_break_values (self : Lines) (w : World) (p : addr) (threshold : float) :
  _parent self = Some p ->
  NoDup (_instances self) ->
  (break_width (block_at w p) =? 0)%float = false ->
  exists w',
    parse_line_break self threshold w = (w', Ok tt) /\
    forall i line, _instances self !! i = Some line ->
      exists v,
        line_break_of (line_at w) (_instances self) (block_at w p)
          (break_edge (block_at w p)) (break_delta (block_at w p))
          (break_width (block_at w p)) threshold i line = Ok v /\
        line_at w' line = with_line_break (line_at w line) v.
Proof.
  intros Hp Hnd Hwidth.
  destruct (line_break_loop_spec w (_instances self) (block_at w p)
              (break_edge (block_at w p)) (break_delta (block_at w p))
              (break_width (block_at w p)) threshold Hwidth
              (_instances self) [] w eq_refl Hnd (fun a _ => eq_refl))
    as (w' & E & _ & Hin & _).
  exists w'. split; [|exact Hin].
  unfold parse_line_break. rewrite Hp.
  rewrite (bind_ok (load_block p) _ w w (block_at w p) eq_refl).
  rewrite <- E. unfold break_edge, break_delta, break_width, enumerate.
  destruct (is_RIGHT (alignment (block_at w p))); reflexivity.
Qed.

(** C4: the comparison with the threshold is strict. On a collection of
    distinct lines owned by a block of non-zero width, [parse_line_break]
    returns; the last line gets [line_break = 0]; a line that is not in the
    row of the next line, the text of which is not blank, gets 1 when its
    free-space ratio is greater than the threshold and 0 when it is not. *)
Theorem Lines_parse_line_break_spec (self : Lines) (w : World) (p : addr)
    (threshold : float) :
  _parent self = Some p ->
  NoDup (_instances self) ->
  (break_width (block_at w p) =? 0)%float = false ->
  exists w',
    parse_line_break self threshold w = (w', Ok tt) /\
    (forall line, last (_instances self) = Some line ->
       line_break (line_at w' line) = 0) /\
    (forall i line next,
       _instances self !! i = Some line ->
       _instances self !! S i = Some next ->
       in_same_row (line_at w line) (line_at w next) = false ->
       py_strip (text (line_at w next)) <> [] ->
       line_break (line_at w' line) =
         if (threshold <? free_space_ratio (block_at w p) (line_at w line))%float
         then 1 else 0).
Proof.
  intros Hp Hnd Hwidth.
  destruct (parse_line_break_values self w p threshold Hp Hnd Hwidth) as (w' & E & Hval).
  exists w'. split; [exact E|]. split.
  - intros line Hlast.
    assert (Hi : _instances self !! Init.Nat.pred (length (_instances self)) = Some line).
    { rewrite <- last_lookup. exact Hlast. }
    destruct (Hval _ _ Hi) as (v & Hv & Hw). rewrite Hw. cbn [line_break with_line_break].
    unfold line_break_of in Hv. rewrite Hlast in Hv. cbn [mbind result_bind from_option] in Hv.
    rewrite Nat.eqb_refl in Hv. congruence.
  - intros i line next Hi Hnext Hrow Htext.
    destruct (Hval _ _ Hi) as (v & Hv & Hw). rewrite Hw. cbn [line_break with_line_break].
    unfold line_break_of in Hv.
    destruct (last (_instances self)) as [last_line|] eqn:Hlast.
    2: { apply last_None in Hlast. rewrite Hlast in Hi. discriminate. }
    cbn [mbind result_bind from_option] in Hv.
    assert (Hne : line <> last_line).
    { intros ->. rewrite last_lookup in Hlast.
      pose proof (NoDup_lookup _ _ _ _ Hnd Hi Hlast) as Heq.
      apply lookup_lt_Some in Hnext. lia. }
    apply Nat.eqb_neq in Hne. rewrite Hne, Hnext in Hv. cbn [mbind result_bind from_option] in Hv.
    rewrite Hrow in Hv. unfold py_truediv in Hv. rewrite Hwidth in Hv. cbn [mbind result_bind from_option] in Hv.
    unfold py_gt in Hv. fold (free_space_ratio (block_at w p) (line_at w line)) in Hv.
    destruct (threshold <? free_space_ratio _ _)%float; [congruence|].
    destruct (py_strip (text (line_at w next))); [contradiction|].
    cbn [negb] in Hv. congruence.
Qed.

(** [parse_text_format] calls [split] with two arguments, the shape and the
    direction of the line; [split] takes one. *)
Lemma call_split_two_arguments (self : addr) (rect : TextSpan.Shape) (v : PyVal)
    (h : TextSpan.Heap) :
  TextSpan.call_split self [TextSpan.AShape rect; TextSpan.AVal v] h
  = (h, Raise TypeError).
Proof. reflexivity. Qed.

(** Inline images pass through the inner loop unchanged and in order. *)
Lemma split_line_spans_images (rect : TextSpan.Shape) (horizontal : bool)
    (runs : list Run) :
  forall (split_spans : list Run) (flag : bool) (w : World),
  forallb is_image runs = true ->
  split_line_spans rect horizontal runs split_spans flag w
  = (w, Ok (split_spans ++ runs, flag)).
Proof.
  induction runs as [|r runs IH]; intros split_spans flag w Himg.
  - cbn. rewrite app_nil_r. reflexivity.
  - cbn [forallb] in Himg. apply andb_prop in Himg as [Hr Hrest].
    destruct r as [a|a]; [discriminate|].
    cbn [split_line_spans]. rewrite IH by exact Hrest.
    rewrite <- app_assoc. reflexivity.
Qed.

(** A text run makes the inner loop raise, and nothing has changed then. *)
Lemma split_line_spans_text_raises (rect : TextSpan.Shape) (horizontal : bool)
    (runs : list Run) :
  forall (split_spans : list Run) (flag : bool) (w : World),
  forallb is_image runs = false ->
  split_line_spans rect horizontal runs split_spans flag w = (w, Raise TypeError).
Proof.
  induction runs as [|r runs IH]; intros split_spans flag w Htxt.
  - discriminate.
  - destruct r as [a|a].
    + cbn [split_line_spans]. unfold mbind, M_bind, on_spans.
      rewrite call_split_two_arguments. destruct w. reflexivity.
    + cbn [split_line_spans]. apply IH. exact Htxt.
Qed.

(** [parse_text_format] raises at the first line that the shape meets and
    that has a text run, whatever comes after it. *)
Lemma parse_text_format_text_raises (self : Lines) (rect : TextSpan.Shape) (w : World)
    (line : addr) (rest : list addr) :
  _instances self = line :: rest ->
  rect_bool (rect_and (TextSpan.Shape_bbox rect)
               (get_expand_bbox (bbox (line_at w line)) MAJOR_DIST)) = true ->
  forallb is_image (spans (line_at w line)) = false ->
  parse_text_format self rect w = (w, Raise TypeError).
Proof.
  intros Hinsts Hmeet Htxt. unfold parse_text_format. rewrite Hinsts.
  cbn [parse_text_format_loop].
  rewrite (bind_ok (load_line line) _ w w (line_at w line) eq_refl).
  rewrite Hmeet. cbn [negb].
  apply bind_raise. apply split_line_spans_text_raises, Htxt.
Qed.

(** On a line of inline images only, the runs are kept. *)
Lemma parse_text_format_images_kept (self : Lines) (rect : TextSpan.Shape) (w : World)
    (line : addr) :
  _instances self = [line] ->
  rect_bool (rect_and (TextSpan.Shape_bbox rect)
               (get_expand_bbox (bbox (line_at w line)) MAJOR_DIST)) = true ->
  forallb is_image (spans (line_at w line)) = true ->
  parse_text_format self rect w
  = (mkWorld (upd (line_at w) line (Spans_reset (line_at w line) (spans (line_at w line))))
       (block_at w) (span_heap w) (stdout w),
     Ok false).
Proof.
  intros Hinsts Hmeet Himg. unfold parse_text_format. rewrite Hinsts.
  cbn [parse_text_format_loop].
  rewrite (bind_ok (load_line line) _ w w (line_at w line) eq_refl).
  rewrite Hmeet. cbn [negb].
  rewrite (bind_ok _ _ _ _ _ (split_line_spans_images rect _ _ [] false w Himg)).
  reflexivity.
Qed.

End LinesFacts.

(** * Examples *)

Section Examples.
Import Demo.
#[local] Existing Instance rects.
#[local] Existing Instance base.
#[local] Existing Instance styles.
#[local] Existing Instance lines.

(** C1: the run "a" at address 1 and the style shape (0,0)-(10,10): the
    shape contains the one character, the block [0, 1) with [pos = 0], and
    [split] raises [AttributeError] at the assignment to [text] of the middle
    part instead of returning the part. *)
Theorem TextSpan_split_contained_block_raises :
  TextSpan.index_chars (TextSpan.chars span_a) (mkRect 0 0 10 10) = [(0%nat, glyph_a)] /\
  snd (TextSpan.split 1%nat (mkRect 0 0 10 10) heap0) = Raise AttributeError.
Proof. split; vm_compute; reflexivity. Qed.

(** The same on the run "ab" and the shape over its first half. *)
Example split_first_half_raises :
  snd (TextSpan.split 0%nat (mkRect 0 0 10 10) heap0) = Raise AttributeError.
Proof. vm_compute. reflexivity. Qed.

(** C3: the run "ab" over (0,0)-(20,10) and the rectangle (30,30)-(40,40),
    which does not meet it: [intersect] raises [TypeError] from [TextSpan()]
    instead of returning an empty run; the rectangle (0,0)-(40,40), which
    contains the bbox of the run, gets a copy at a new address. *)
Theorem TextSpan_intersect_no_overlap_raises :
  TextSpan.intersect 0%nat (mkRect 30 30 40 40) heap0 = (heap0, Raise TypeError) /\
  snd (TextSpan.intersect 0%nat (mkRect 0 0 40 40) heap0) = Ok 2%nat /\
  TextSpan.cells (fst (TextSpan.intersect 0%nat (mkRect 0 0 40 40) heap0)) 2%nat = span_ab.
Proof.
  split; [apply intersect_no_overlap_raises; reflexivity|].
  split; vm_compute; reflexivity.
Qed.

(** C2: a collection of the one line "ab", a text run, and the style shape
    (0,0)-(10,10), which meets the expanded bbox of the line:
    [parse_text_format] raises [TypeError] at the call of [split] with two
    arguments, and the run of the line is not replaced. *)
Theorem Lines_parse_text_format_raises :
  Lines.parse_text_format (Lines.mkLines [2%nat] (Some 0%nat)) (mkRect 0 0 10 10) fragments
  = (fragments, Raise TypeError).
Proof. apply parse_text_format_text_raises with (line := 2%nat) (rest := []); reflexivity. Qed.

Lemma TextSpan_split_no_intersection_witness :
  rect_bool (rect_and (mkRect 30 30 40 40) (TextSpan.bbox (TextSpan.cells heap0 0%nat)))
    = false /\
  TextSpan.split 0%nat (mkRect 30 30 40 40) heap0 = (heap0, Ok [0%nat]).
Proof.
  split; [reflexivity|].
  apply (TextSpan_split_no_intersection heap0 0%nat (mkRect 30 30 40 40)). reflexivity.
Defined.

Lemma TextSpan_split_receiver_unchanged_witness :
  (0 < TextSpan.next heap0)%nat /\
  extends heap0 (fst (TextSpan.split 0%nat (mkRect 0 0 10 10) heap0)) /\
  same_content (TextSpan.cells heap0 0%nat)
    (TextSpan.cells (fst (TextSpan.split 0%nat (mkRect 0 0 10 10) heap0)) 0%nat) /\
  (rect_bool (rect_and (mkRect 0 0 10 10) (TextSpan.bbox (TextSpan.cells heap0 0%nat)))
     = false ->
   TextSpan.split 0%nat (mkRect 0 0 10 10) heap0 = (heap0, Ok [0%nat])) /\
  (rect_bool (rect_and (mkRect 0 0 10 10) (TextSpan.bbox (TextSpan.cells heap0 0%nat)))
     = true ->
   forall parts, snd (TextSpan.split 0%nat (mkRect 0 0 10 10) heap0) = Ok parts ->
   Forall (fun p => (TextSpan.next heap0 <= p)%nat /\ p <> 0%nat) parts).
Proof.
  split; [vm_compute; lia|].
  apply (TextSpan_split_receiver_unchanged heap0 0%nat (mkRect 0 0 10 10)).
  vm_compute. lia.
Defined.

(** The instance keeps the contracts that the facts ask of the interfaces. *)
Lemma demo_char_roundtrip (ch : Glyph) : glyph_init (glyph_store ch) = Ok ch.
Proof. destruct ch as [g [a b c d]]. reflexivity. Defined.

Lemma demo_bbox_roundtrip (b : Rect) (m : gmap string PyVal) :
  (forall k, ~ In k span_keys -> m !! k = (<["bbox"%string := box_store b]> ∅ : gmap string PyVal) !! k) ->
  raw_bbox (VDict m) = Ok b.
Proof.
  destruct b as [a b c d]. intros Hm. cbn.
  rewrite (Hm "bbox"%string); [reflexivity|].
  unfold span_keys. cbn. intuition discriminate.
Defined.

Lemma demo_sort_reorders (L : addr -> Lines.Line) (l : list addr) :
  Permutation (sort_by (reading_lt L) l) l.
Proof. apply sort_by_perm. Defined.

Lemma demo_add_appends (l : Lines.Line) (rs : list Lines.Run) :
  Lines.spans (add_runs l rs) = Lines.spans l ++ rs.
Proof. reflexivity. Defined.

Lemma TextSpan_store_roundtrip_witness :
  (forall ch, glyph_init (glyph_store ch) = Ok ch) /\
  TextSpan.__init__ (VDict (TextSpan.store span_ab)) = Ok span_ab.
Proof.
  split; [exact demo_char_roundtrip|].
  exact (TextSpan_store_roundtrip span_ab demo_char_roundtrip demo_bbox_roundtrip).
Defined.

Lemma Lines_sort_permutation_witness :
  (forall L l, Permutation (sort_by (reading_lt L) l) l) /\
  exists self', Lines.sort three_lines fragments = (fragments, Ok self') /\
    Permutation (Lines._instances self') [0; 1; 2]%nat /\
    Lines._parent self' = Some 0%nat.
Proof.
  split; [exact demo_sort_reorders|].
  exact (Lines_sort_permutation three_lines fragments demo_sort_reorders).
Defined.

(** The fragments sorted: the text, the image next to it, the line below. *)
Example sort_fragments :
  snd (Lines.sort three_lines fragments) = Ok (Lines.mkLines [2; 1; 0]%nat (Some 0%nat)).
Proof. vm_compute. reflexivity. Qed.

Lemma Lines_join_spec_witness :
  (forall l rs, Lines.spans (add_runs l rs) = Lines.spans l ++ rs) /\
  exists w' self',
    Lines.join three_lines 0.9 5 fragments = (w', Ok self') /\
    (length (Lines._instances self') <= 3)%nat /\
    (forall line, In line (Lines._instances self') -> In line [0; 1; 2]%nat) /\
    (forall line run,
       In line (Lines._instances self') -> In run (Lines.spans (Lines.line_at w' line)) ->
       exists line0, In line0 [0; 1; 2]%nat /\
                     In run (Lines.spans (Lines.line_at fragments line0))) /\
    (([0; 1; 2]%nat : list addr) = [] -> w' = fragments /\ self' = three_lines).
Proof.
  split; [exact demo_add_appends|].
  exact (Lines_join_spec three_lines fragments 0.9 5 demo_sort_reorders demo_add_appends).
Defined.

(** The fragments joined: the image has become a run of the text line. *)
Example join_fragments :
  let '(w', self') := Lines.join three_lines 0.9 5 fragments in
  self' = Ok (Lines.mkLines [2; 0]%nat (Some 0%nat)) /\
  Lines.spans (Lines.line_at w' 2%nat) = [Lines.RText 0%nat; Lines.RImage 5%nat].
Proof. vm_compute. split; reflexivity. Qed.

(** [join] on the empty collection. *)
Example join_empty :
  Lines.join (Lines.mkLines [] (Some 0%nat)) 0.9 5 fragments
  = (fragments, Ok (Lines.mkLines [] (Some 0%nat))).
Proof. reflexivity. Qed.

(** [strip]: the line " cd " reports a change and the block gets the
    aggregate bbox; the two other lines alone report none. *)
Example strip_fragments :
  snd (Lines.strip three_lines fragments) = Ok true /\
  Lines.block_bbox (Lines.block_at (fst (Lines.strip three_lines fragments)) 0%nat)
    = mkRect 0 0 60 22 /\
  Lines.strip (Lines.mkLines [1; 2]%nat (Some 0%nat)) fragments
    = (fst (Lines.strip_lines [1; 2]%nat fragments), Ok false) /\
  Lines.block_at (fst (Lines.strip (Lines.mkLines [1; 2]%nat (Some 0%nat)) fragments)) 0%nat
    = block0.
Proof. vm_compute. repeat split; reflexivity. Qed.

Lemma two_lines_distinct : NoDup (Lines._instances two_lines).
Proof. apply (bool_decide_unpack _). reflexivity. Defined.

Lemma Lines_parse_line_break_spec_witness :
  Lines._parent two_lines = Some 0%nat /\
  NoDup (Lines._instances two_lines) /\
  (break_width (Lines.block_at (world 49) 0%nat) =? 0)%float = false /\
  exists w',
    Lines.parse_line_break two_lines 0.5 (world 49) = (w', Ok tt) /\
    (forall line, last (Lines._instances two_lines) = Some line ->
       Lines.line_break (Lines.line_at w' line) = 0) /\
    (forall i line next,
       Lines._instances two_lines !! i = Some line ->
       Lines._instances two_lines !! S i = Some next ->
       rows_overlap (Lines.line_at (world 49) line) (Lines.line_at (world 49) next) = false ->
       py_strip (Lines.text (Lines.line_at (world 49) next)) <> [] ->
       Lines.line_break (Lines.line_at w' line) =
         if (0.5 <? free_space_ratio (Lines.block_at (world 49) 0%nat)
                      (Lines.line_at (world 49) line))%float
         then 1 else 0).
Proof.
  split; [reflexivity|]. split; [exact two_lines_distinct|]. split; [reflexivity|].
  exact (Lines_parse_line_break_spec two_lines (world 49) 0%nat 0.5
           eq_refl two_lines_distinct eq_refl).
Defined.

(** The boundary of C4, on a block of width 100 with no space left over: a
    line that ends 51 before the right edge of the block has the ratio 0.51
    and gets a break with the threshold 0.5; at 49 (ratio 0.49), and at 50
    (ratio 0.5, the threshold itself), it gets none. The line after it, the
    last one, gets none either. *)
Example line_break_at_the_threshold :
  free_space_ratio block0 (line_upper 49) = 0.51%float /\
  free_space_ratio block0 (line_upper 51) = 0.49%float /\
  free_space_ratio block0 (line_upper 50) = 0.5%float /\
  map (fun a => Lines.line_break
                  (Lines.line_at (fst (Lines.parse_line_break two_lines 0.5 (world 49))) a))
    [0; 1]%nat = [1; 0] /\
  map (fun a => Lines.line_break
                  (Lines.line_at (fst (Lines.parse_line_break two_lines 0.5 (world 51))) a))
    [0; 1]%nat = [0; 0] /\
  map (fun a => Lines.line_break
                  (Lines.line_at (fst (Lines.parse_line_break two_lines 0.5 (world 50))) a))
    [0; 1]%nat = [0; 0].
Proof. vm_compute. repeat split; reflexivity. Qed.

(** A block of width zero: the division raises. *)
Example line_break_zero_width :
  snd (Lines.parse_line_break two_lines 0.5
         (Lines.mkWorld (Lines.line_at (world 49))
            (fun _ => Lines.mkBlock (mkRect 5 0 5 20) true Lines.NOT_RIGHT 0 0 0 0)
            heap0 []))
  = Raise ZeroDivisionError.
Proof. vm_compute. reflexivity. Qed.

End Examples.

(** * Further facts *)

(** ** TextSpan *)

Section MoreTextSpanFacts.
Context {RO : RectOps} {BO : TextSpan.BaseOps} {SO : @TextSpan.StyleOps BO}.
Import TextSpan.

(** X1: the three outcomes of [split]. Without intersection it returns the
    run itself; with an intersection it returns the empty list when the run
    has no character, and raises [AttributeError] when it has one: it never
    returns a part. In the two returning cases the store is untouched. *)
Theorem TextSpan_split_outcomes (h : Heap) (self : addr) (rect : Shape) :
  if rect_bool (rect_and (Shape_bbox rect) (bbox (cells h self))) then
    match chars (cells h self) with
    | [] => split self rect h = (h, Ok [])
    | _ :: _ => snd (split self rect h) = Raise AttributeError
    end
  else split self rect h = (h, Ok [self]).
Proof.
  destruct (rect_bool _) eqn:Hmeet.
  - destruct (chars (cells h self)) as [|c cs] eqn:Hchars.
    + unfold split.
      rewrite (bind_ok (load self) _ h h (cells h self) eq_refl).
      rewrite Hmeet, Hchars. cbv [mbind M_bind mret M_ret load gets]. cbn.
      replace (0 <? Z.of_nat 0) with false by reflexivity. cbv iota beta.
      rewrite Hchars. reflexivity.
    + apply split_raises; [exact Hmeet|]. rewrite Hchars. discriminate.
  - unfold split.
    rewrite (bind_ok (load self) _ h h (cells h self) eq_refl).
    rewrite Hmeet. reflexivity.
Qed.

(** The loop of [intersect] keeps the characters that pass the test, in
    order, and unites the bbox of the run once for each of them. *)
Lemma intersect_chars_spec (self_bbox rect : Rect) (cs : list Char) :
  forall (span_chars : list Char) (span_bbox : Rect),
  intersect_chars self_bbox rect cs span_chars span_bbox
  = (span_chars ++ kept_chars rect cs,
     Nat.iter (length (kept_chars rect cs)) (fun r => rect_or r self_bbox) span_bbox).
Proof.
  induction cs as [|c cs IH]; intros span_chars span_bbox.
  - cbn. rewrite app_nil_r. reflexivity.
  - cbn [intersect_chars kept_chars List.filter].
    destruct (get_main_bbox (Char_bbox c) rect 0.2).
    + rewrite IH. fold (kept_chars rect cs). rewrite <- app_assoc.
      cbn [length app]. rewrite Nat.iter_succ_r. reflexivity.
    + apply IH.
Qed.

(** X2: the outcomes of [intersect]. A rectangle that contains the bbox of
    the run gets a copy of the run. Otherwise, when the rectangle does not
    meet the bbox, or meets it but keeps no character, the call of
    [TextSpan()] raises [TypeError] and the store is untouched. Otherwise the
    result is a new run with the kept characters, in order; its bbox is
    updated with the union of [Rect()] and the bbox of the whole run, not
    of the kept characters. No existing run is changed. *)
Theorem TextSpan_intersect_outcomes (h : Heap) (self : addr) (rect : Rect) :
  let s := cells h self in
  let kept := kept_chars rect (chars s) in
  let made (s' : TextSpan) :=
    exists h', intersect self rect h = (h', Ok (next h)) /\
      next h' = S (next h) /\ cells h' (next h) = s' /\
      forall a, a <> next h -> cells h' a = cells h a in
  if rect_contains rect (bbox s) then made s
  else if rect_intersects rect (bbox s) then
    match kept with
    | [] => intersect self rect h = (h, Raise TypeError)
    | _ :: _ =>
        made (with_bbox (with_chars s kept)
                (BBox_update (bbox s)
                   (Nat.iter (length kept) (fun r => rect_or r (bbox s)) Rect0)))
    end
  else intersect self rect h = (h, Raise TypeError).
Proof.
  cbv zeta. unfold intersect.
  rewrite (bind_ok (load self) _ h h (cells h self) eq_refl).
  destruct (rect_contains rect (bbox (cells h self))).
  { eexists. split; [reflexivity|]. cbn. split; [reflexivity|].
    split; [apply upd_same|]. intros a Ha. apply upd_other, Ha. }
  destruct (rect_intersects rect (bbox (cells h self))); [|reflexivity].
  cbn [negb]. rewrite intersect_chars_spec. cbn [app].
  destruct (kept_chars rect (chars (cells h self))) as [|c kept] eqn:Hkept;
    [reflexivity|].
  eexists. split; [reflexivity|]. cbn. split; [reflexivity|].
  split.
  - rewrite !upd_same. reflexivity.
  - intros a Ha. rewrite !upd_other by exact Ha. reflexivity.
Qed.

(** X3: [text] is computed once. A read returns the cached text, or else
    the glyphs of the characters joined, and caches it; a second read
    returns the same and changes nothing; and after the characters of the
    run are replaced, [text] still reads the old text. *)
Theorem TextSpan_text_cached (h : Heap) (a : addr) (cs : list Char) :
  exists h1,
    text a h = (h1, Ok (text_of (cells h a))) /\
    text a h1 = (h1, Ok (text_of (cells h a))) /\
    snd ((set_chars a cs ≫= fun _ => text a) h1) = Ok (text_of (cells h a)).
Proof.
  unfold text at 1. rewrite (bind_ok (load a) _ h h (cells h a) eq_refl).
  unfold text_of. destruct (_text (cells h a)) as [t|] eqn:Hcache.
  - exists h. split; [reflexivity|]. split.
    + unfold text. rewrite (bind_ok (load a) _ h h (cells h a) eq_refl).
      rewrite Hcache. reflexivity.
    + cbv [mbind M_bind set_chars load gets write modify text mret M_ret].
      cbn. rewrite upd_same. cbn. rewrite Hcache. reflexivity.
  - eexists. split; [reflexivity|]. split.
    + cbv [mbind M_bind load gets write modify text mret M_ret].
      cbn. rewrite upd_same. reflexivity.
    + cbv [mbind M_bind set_chars load gets write modify text mret M_ret].
      cbn. rewrite !upd_same. reflexivity.
Qed.

Lemma init_fresh (raw : PyVal) (s : TextSpan) :
  __init__ raw = Ok s -> _text s = None /\ style s = [].
Proof.
  unfold __init__. intros H.
  repeat match type of H with
         | (?m ≫= _) = Ok _ => destruct m; cbn in H; [|discriminate]
         end.
  injection H as <-. split; reflexivity.
Qed.

Lemma concat_length_ones {X} (f : X -> pystr) (xs : list X) :
  (forall x, In x xs -> length (f x) = 1%nat) ->
  length (concat (map f xs)) = length xs.
Proof.
  induction xs as [|x xs IH]; intros H; [reflexivity|].
  cbn. rewrite length_app, (H x) by (left; reflexivity).
  rewrite IH by (intros y Hy; apply H; right; exact Hy). reflexivity.
Qed.

(** X4: a run constructed from a raw record has no style and no cached
    text; its text, read when it has been put in the store, is the glyphs
    of its characters joined in order, and has as many code points as the
    run has characters when each character has one glyph. *)
Theorem TextSpan_new_text_length (raw : PyVal) (s : TextSpan) (h : Heap) :
  __init__ raw = Ok s ->
  style s = [] /\
  _text s = None /\
  snd (text (next h) (fst (alloc s h))) = Ok (concat (map Char_c (chars s))) /\
  ((forall c, In c (chars s) -> length (Char_c c) = 1%nat) ->
   exists t, snd (text (next h) (fst (alloc s h))) = Ok t /\
             length t = length (chars s)).
Proof.
  intros Hinit. destruct (init_fresh raw s Hinit) as [Hcache Hstyle].
  assert (Hread : snd (text (next h) (fst (alloc s h)))
                  = Ok (concat (map Char_c (chars s)))).
  { cbv [alloc text mbind M_bind load gets write modify mret M_ret]. cbn.
    rewrite upd_same, Hcache. reflexivity. }
  split; [exact Hstyle|]. split; [exact Hcache|]. split; [exact Hread|].
  intros Hone. exists (concat (map Char_c (chars s))).
  split; [exact Hread | apply concat_length_ones, Hone].
Qed.

End MoreTextSpanFacts.

(** ** Lines *)

Section MoreListFacts.
Context {A : Type}.

Lemma chain_snoc (R : A -> A -> Prop) (l : list A) (x : A) :
  chain R (l ++ [x]) <->
  chain R l /\ (forall a, last l = Some a -> R a x).
Proof.
  induction l as [|a l IH].
  - cbn. split; [intros _; split; [exact I | intros a H; discriminate] | auto].
  - destruct l as [|b l].
    + cbn. split.
      * intros [H _]. split; [exact I|]. intros a' [= <-]. exact H.
      * intros [_ H]. split; [apply H; reflexivity | exact I].
    + change (chain R ((a :: b :: l) ++ [x])) with (R a b /\ chain R ((b :: l) ++ [x])).
      change (chain R (a :: b :: l)) with (R a b /\ chain R (b :: l)).
      change (last (a :: b :: l)) with (last (b :: l)).
      rewrite IH. tauto.
Qed.

Lemma chain_insert_by (lt : A -> A -> bool) (x : A) (l : list A) :
  in_order lt l -> in_order lt (insert_by lt x l).
Proof.
  unfold in_order. induction l as [|y l IH]; intros Hl; [exact I|].
  cbn [insert_by]. destruct (lt x y) eqn:Hxy.
  - split; [left; exact Hxy | exact Hl].
  - destruct l as [|z l].
    + cbn. split; [right; exact Hxy | exact I].
    + destruct Hl as [Hyz Hl]. specialize (IH Hl). cbn [insert_by] in *.
      destruct (lt x z) eqn:Hxz.
      * split; [right; exact Hxy | exact IH].
      * split; [exact Hyz | exact IH].
Qed.

Lemma sort_by_in_order (lt : A -> A -> bool) (l : list A) :
  in_order lt (sort_by lt l).
Proof.
  unfold sort_by.
  assert (H : forall acc, in_order lt acc ->
                in_order lt (fold_left (fun acc x => insert_by lt x acc) l acc)).
  { induction l as [|x l IH]; intros acc Hacc; [exact Hacc|].
    cbn. apply IH, chain_insert_by, Hacc. }
  apply H. exact I.
Qed.

End MoreListFacts.

Section MoreLinesFacts.
Context {RO : RectOps} {BO : TextSpan.BaseOps} {SO : @TextSpan.StyleOps BO}
  {LO : Lines.LineOps} {DO : Lines.DocOps}.
Import Lines.

(** The row partition makes rows of lines that follow each other in one
    row, and begins a row where the line is not in the row of the last. *)
Lemma rows_loop_rows (L : addr -> Line) (insts : list addr) :
  forall rows : list (list addr),
  Forall (fun row => row <> []) rows ->
  Forall (row_chained L) rows ->
  rows_separated L rows ->
  exists rows', rows_loop L insts rows = Ok rows' /\
    Forall (fun row => row <> []) rows' /\
    Forall (row_chained L) rows' /\
    rows_separated L rows' /\
    concat rows' = concat rows ++ insts.
Proof.
  induction insts as [|line rest IH]; intros rows Hne Hch Hsep.
  - exists rows. rewrite app_nil_r. auto.
  - cbn [rows_loop].
    assert (Hcat : concat (rows ++ [[line]]) ++ rest = concat rows ++ line :: rest).
    { rewrite concat_app. simpl. rewrite <- !app_assoc. reflexivity. }
    assert (Hne1 : Forall (fun row : list addr => row <> []) (rows ++ [[line]])).
    { apply Forall_app. split; [exact Hne|]. constructor; [discriminate|constructor]. }
    assert (Hch1 : Forall (row_chained L) (rows ++ [[line]])).
    { apply Forall_app. split; [exact Hch|]. constructor; [exact I|constructor]. }
    destruct (last rows) as [row|] eqn:Hlast.
    + pose proof (last_split _ _ Hlast) as Hrows.
      assert (Hrow : row <> [] /\ row_chained L row).
      { rewrite Hrows in Hne, Hch.
        apply Forall_app in Hne as [_ Hne]. apply Forall_app in Hch as [_ Hch].
        inversion Hne; inversion Hch; auto. }
      destruct Hrow as [Hrow Hrowch].
      destruct (last row) as [prev|] eqn:Hprev.
      2: { apply last_None in Hprev. contradiction. }
      destruct (negb (in_same_row (L line) (L prev))) eqn:Hsame; cbn.
      * assert (Hsep1 : rows_separated L (rows ++ [[line]])).
        { apply chain_snoc. split; [exact Hsep|].
          intros r1 Hr1 a b Ha Hb. rewrite Hlast in Hr1. injection Hr1 as <-.
          rewrite Hprev in Ha. injection Ha as <-. cbn in Hb. injection Hb as <-.
          apply negb_true_iff, Hsame. }
        destruct (IH _ Hne1 Hch1 Hsep1) as (rows' & E & H1 & H2 & H3 & Hc).
        exists rows'. rewrite Hc, Hcat. auto.
      * apply negb_false_iff in Hsame.
        assert (Hne2 : Forall (fun row : list addr => row <> [])
                         (removelast rows ++ [row ++ [line]])).
        { rewrite Hrows in Hne. apply Forall_app in Hne as [Hne _].
          apply Forall_app. split; [exact Hne|].
          constructor; [|constructor]. destruct row; discriminate. }
        assert (Hch2 : Forall (row_chained L) (removelast rows ++ [row ++ [line]])).
        { rewrite Hrows in Hch. apply Forall_app in Hch as [Hch _].
          apply Forall_app. split; [exact Hch|].
          constructor; [|constructor]. apply chain_snoc. split; [exact Hrowch|].
          intros a Ha. rewrite Hprev in Ha. injection Ha as <-. exact Hsame. }
        assert (Hsep2 : rows_separated L (removelast rows ++ [row ++ [line]])).
        { unfold rows_separated in *. rewrite Hrows in Hsep.
          apply chain_snoc in Hsep as [Hsep0 Hsep1].
          apply chain_snoc. split; [exact Hsep0|].
          intros r1 Hr1 a b Ha Hb. apply (Hsep1 r1 Hr1 a b Ha).
          destruct row; [contradiction | exact Hb]. }
        destruct (IH _ Hne2 Hch2 Hsep2) as (rows' & E & H1 & H2 & H3 & Hc).
        exists rows'. split; [exact E|]. repeat (split; [assumption|]).
        rewrite Hc. rewrite Hrows at 2. rewrite !concat_app. simpl.
        rewrite !app_nil_r, <- !app_assoc. reflexivity.
    + cbn. apply last_None in Hlast. subst rows.
      assert (Hsep1 : rows_separated L ([] ++ [[line]])) by exact I.
      destruct (IH _ Hne1 Hch1 Hsep1) as (rows' & E & H1 & H2 & H3 & Hc).
      exists rows'. rewrite Hc. auto.
Qed.

(** X5: what [sort] makes of the collection. The lines in reading order
    are cut into rows: no row is empty, in a row each line is in the row of
    the line before it, and a row ends where the next line is not in the
    row of its last line. The collection then holds the rows one after the
    other, each a permutation of itself in which no line is followed by one
    with a smaller key. The world is untouched. *)
Theorem Lines_sort_rows (self : Lines) (w : World) :
  exists rows sorted_rows,
    concat rows = sort_in_reading_order (line_at w) (_instances self) /\
    Forall (fun row => row <> []) rows /\
    Forall (row_chained (line_at w)) rows /\
    rows_separated (line_at w) rows /\
    Forall2 (fun row sorted =>
               Permutation sorted row /\
               in_order (fun a b =>
                 (row_key (line_at w)
                    (sort_in_reading_order (line_at w) (_instances self)) a
                  <? row_key (line_at w)
                    (sort_in_reading_order (line_at w) (_instances self)) b)%float)
                 sorted)
      rows sorted_rows /\
    sort self w = (w, Ok (mkLines (concat sorted_rows) (_parent self))).
Proof.
  destruct (rows_loop_rows (line_at w)
              (sort_in_reading_order (line_at w) (_instances self)) [])
    as (rows & E & Hne & Hch & Hsep & Hc); [constructor | constructor | exact I |].
  exists rows. eexists. split; [exact Hc|]. repeat (split; [assumption|]).
  split.
  2: { unfold sort.
       rewrite (bind_ok (gets line_at) _ w w (line_at w) eq_refl).
       rewrite (bind_ok (lift _) _ w w rows); [|unfold lift; rewrite E; reflexivity].
       reflexivity. }
  clear. induction rows as [|row rows IH]; [constructor|].
  cbn [map]. constructor; [|exact IH].
  split; [apply sort_by_perm | apply sort_by_in_order].
Qed.


Section MoreJoin.
Variables (t1 t2 : float).

(** The loop of [join] on a local collection without parent is the turns
    of [join_step] one after the other. *)
Lemma join_loop_cons (line : addr) (rest members : list addr) (w : World) :
  join_loop t1 t2 (line :: rest) (mkLines members None) w
  = join_loop t1 t2 rest (mkLines (fst (join_step t1 t2 members line w)) None)
      (snd (join_step t1 t2 members line w)).
Proof.
  cbn [join_loop]. unfold join_step.
  rewrite (bind_ok (load_line line) _ w w (line_at w line) eq_refl).
  cbn [_instances].
  destruct (last members) as [prev|].
  2: { unfold mbind at 1, M_bind at 1.
       rewrite (append_no_parent (mkLines members None) line w eq_refl). reflexivity. }
  cbv zeta.
  rewrite (bind_ok (load_line prev ≫= _) _ w
             (snd (if Line_get_main_bbox (line_at w line) (line_at w prev) t1
                   then (members,
                         mkWorld (line_at w) (block_at w) (span_heap w)
                           (stdout w ++ [pystr_of_string "Ignore Line " ++ [34%N]
                              ++ text (line_at w line) ++ [34%N]
                              ++ pystr_of_string " due to overlap"]))
                   else if negb (in_same_row (line_at w line) (line_at w prev))
                   then (members ++ [line], w)
                   else if py_gt (abs (x0 (bbox (line_at w line))
                                       - x1 (bbox (line_at w prev)))) t2
                   then (members ++ [line], w)
                   else (members,
                         mkWorld (upd (line_at w) prev
                                    (Line_add (line_at w prev) (spans (line_at w line))))
                           (block_at w) (span_heap w) (stdout w))))
             (mkLines
                (fst (if Line_get_main_bbox (line_at w line) (line_at w prev) t1
                   then (members,
                         mkWorld (line_at w) (block_at w) (span_heap w)
                           (stdout w ++ [pystr_of_string "Ignore Line " ++ [34%N]
                              ++ text (line_at w line) ++ [34%N]
                              ++ pystr_of_string " due to overlap"]))
                   else if negb (in_same_row (line_at w line) (line_at w prev))
                   then (members ++ [line], w)
                   else if py_gt (abs (x0 (bbox (line_at w line))
                                       - x1 (bbox (line_at w prev)))) t2
                   then (members ++ [line], w)
                   else (members,
                         mkWorld (upd (line_at w) prev
                                    (Line_add (line_at w prev) (spans (line_at w line))))
                           (block_at w) (span_heap w) (stdout w))))
                None)); [reflexivity|].
  rewrite (bind_ok (load_line prev) _ w w (line_at w prev) eq_refl).
  destruct (Line_get_main_bbox _ _ _); [reflexivity|].
  destruct (negb _); [apply (append_no_parent (mkLines members None)); reflexivity|].
  destruct (py_gt _ _); [apply (append_no_parent (mkLines members None)); reflexivity|].
  reflexivity.
Qed.

(** What a turn does: it appends the line and changes nothing; or it drops
    the line and prints one message; or it gives the runs of the line to
    the last member. *)
Lemma join_step_cases (members : list addr) (line : addr) (w : World) :
  join_step t1 t2 members line w = (members ++ [line], w) \/
  (exists prev, last members = Some prev /\
     join_step t1 t2 members line w
     = (members, mkWorld (line_at w) (block_at w) (span_heap w)
                   (stdout w ++ [ignore_message (text (line_at w line))]))) \/
  (exists prev, last members = Some prev /\
     join_step t1 t2 members line w
     = (members,
        mkWorld (upd (line_at w) prev
                   (Line_add (line_at w prev) (spans (line_at w line))))
          (block_at w) (span_heap w) (stdout w))).
Proof.
  unfold join_step. destruct (last members) as [prev|]; [|left; reflexivity].
  cbv zeta. destruct (Line_get_main_bbox _ _ _).
  { right. left. exists prev. split; reflexivity. }
  destruct (negb _); [left; reflexivity|].
  destruct (py_gt _ _); [left; reflexivity|].
  right. right. exists prev. split; reflexivity.
Qed.

(** The members that the loop adds are lines of the input in their order,
    the first of them the first line when the collection was empty; lines
    that are not members in the end are untouched; every dropped line has
    its message. *)
Lemma join_loop_order (insts : list addr) :
  forall (members : list addr) (w : World),
  exists w' kept msgs,
    join_loop t1 t2 insts (mkLines members None) w
      = (w', Ok (mkLines (members ++ kept) None)) /\
    sublist kept insts /\
    (members = [] -> head kept = head insts) /\
    (forall a, ~ In a (members ++ kept) -> line_at w' a = line_at w a) /\
    block_at w' = block_at w /\ span_heap w' = span_heap w /\
    stdout w' = stdout w ++ msgs /\
    (length kept + length msgs <= length insts)%nat.
Proof.
  induction insts as [|line rest IH]; intros members w.
  - exists w, [], []. cbn. rewrite !app_nil_r. repeat split; auto; constructor.
  - rewrite join_loop_cons.
    destruct (join_step_cases members line w)
      as [E | [(prev & Hlast & E) | (prev & Hlast & E)]]; rewrite E; cbn [fst snd].
    + destruct (IH (members ++ [line]) w)
        as (w' & kept & msgs & El & Hsub & _ & Hout & Hb & Hs & Ho & Hlen).
      exists w', (line :: kept), msgs. rewrite <- app_assoc in El.
      split; [exact El|]. split; [apply sublist_skip, Hsub|].
      split; [reflexivity|].
      split; [intros a Ha; apply Hout; rewrite <- app_assoc; exact Ha|].
      cbn [length]. repeat split; auto; lia.
    + destruct (IH members (mkWorld (line_at w) (block_at w) (span_heap w)
                              (stdout w ++ [ignore_message (text (line_at w line))])))
        as (w' & kept & msgs & El & Hsub & _ & Hout & Hb & Hs & Ho & Hlen).
      exists w', kept, (ignore_message (text (line_at w line)) :: msgs). cbn [stdout] in Ho. rewrite <- app_assoc in Ho.
      split; [exact El|]. split; [apply sublist_cons, Hsub|].
      split; [intros ->; discriminate|].
      cbn [length]. repeat split; auto; lia.
    + destruct (IH members
                  (mkWorld (upd (line_at w) prev
                              (Line_add (line_at w prev) (spans (line_at w line))))
                     (block_at w) (span_heap w) (stdout w)))
        as (w' & kept & msgs & El & Hsub & _ & Hout & Hb & Hs & Ho & Hlen).
      exists w', kept, msgs.
      split; [exact El|]. split; [apply sublist_cons, Hsub|].
      split; [intros ->; discriminate|].
      split.
      * intros a Ha. rewrite (Hout a Ha). cbn [line_at]. apply upd_other.
        intros ->. apply Ha. apply in_or_app. left.
        apply last_Some in Hlast as [l' ->]. apply in_or_app. right. left. reflexivity.
      * cbn [length]. repeat split; auto; lia.
Qed.

End MoreJoin.

Section MoreJoinRuns.
Variables (t1 t2 : float).
Hypothesis Line_add_spans : forall l rs, spans (Line_add l rs) = spans l ++ rs.

(** In the loop of [join] the lines only gain runs, the members stay, and
    when no message is printed every run of a visited line ends in a
    member. *)
Lemma join_loop_runs (insts : list addr) :
  forall (members : list addr) (w w' : World) (lines' : Lines),
  join_loop t1 t2 insts (mkLines members None) w = (w', Ok lines') ->
  (forall a, incl (spans (line_at w a)) (spans (line_at w' a))) /\
  incl members (_instances lines') /\
  (stdout w' = stdout w ->
   forall a run, In a insts -> In run (spans (line_at w a)) ->
   exists line, In line (_instances lines') /\ In run (spans (line_at w' line))).
Proof.
  induction insts as [|line rest IH]; intros members w w' lines' H.
  - cbn in H. injection H as <- <-. split; [intros a; apply incl_refl|].
    split; [apply incl_refl|]. intros _ a run [].
  - rewrite join_loop_cons in H.
    destruct (join_step_cases t1 t2 members line w)
      as [E | [(prev & Hlast & E) | (prev & Hlast & E)]];
      rewrite E in H; cbn [fst snd] in H.
    + destruct (IH _ _ _ _ H) as (Hmono & Hincl & Hkeep).
      split; [exact Hmono|]. split.
      { intros a Ha. apply Hincl, in_or_app. left. exact Ha. }
      intros Hout a run [<-|Ha] Hrun.
      * exists line. split; [apply Hincl, in_or_app; right; left; reflexivity|].
        apply Hmono, Hrun.
      * apply (Hkeep Hout a run Ha Hrun).
    + destruct (IH _ _ _ _ H) as (Hmono & Hincl & _).
      split; [exact Hmono|]. split; [exact Hincl|].
      intros Hout. exfalso.
      destruct (join_loop_order t1 t2 rest members
                  (mkWorld (line_at w) (block_at w) (span_heap w)
                     (stdout w ++ [ignore_message (text (line_at w line))])))
        as (w'' & kept & msgs & El & _ & _ & _ & _ & _ & Ho & _).
      rewrite H in El. injection El as <- _. cbn [stdout] in Ho.
      rewrite Hout in Ho. apply (f_equal length) in Ho.
      rewrite !length_app in Ho. cbn [length] in Ho. lia.
    + destruct (IH _ _ _ _ H) as (Hmono & Hincl & Hkeep).
      assert (Hstep : forall a, incl (spans (line_at w a))
                        (spans (upd (line_at w) prev
                                  (Line_add (line_at w prev) (spans (line_at w line))) a))).
      { intros a run Hrun. unfold upd. destruct (Nat.eqb a prev) eqn:Ea; [|exact Hrun].
        apply Nat.eqb_eq in Ea. subst a. rewrite Line_add_spans.
        apply in_or_app. left. exact Hrun. }
      cbn [line_at stdout] in Hmono, Hkeep.
      split; [intros a run Hrun; apply Hmono, Hstep, Hrun|].
      split; [exact Hincl|].
      intros Hout a run [<-|Ha] Hrun.
      * exists prev. split.
        { apply Hincl. apply last_Some in Hlast as [l' ->].
          apply in_or_app. right. left. reflexivity. }
        apply Hmono. rewrite upd_same, Line_add_spans.
        apply in_or_app. right. exact Hrun.
      * apply (Hkeep Hout a run Ha). apply Hstep, Hrun.
Qed.

End MoreJoinRuns.

Section MoreJoinFates.
Variables (t1 t2 : float) (w0 : World).


End MoreJoinFates.



(** X7: [join] loses no run unless it drops a line. Given that
    [sort_in_reading_order] only reorders and that [add] appends the runs it
    is given: when [join] has printed no message, every run of every line
    of the collection is afterwards a run of a line of the collection. *)
Theorem Lines_join_keeps_runs (self : Lines) (w : World) (t1 t2 : float)
    (w' : World) (self' : Lines) :
  (forall L l, Permutation (sort_in_reading_order L l) l) ->
  (forall l rs, spans (Line_add l rs) = spans l ++ rs) ->
  join self t1 t2 w = (w', Ok self') ->
  stdout w' = stdout w ->
  forall a run,
    In a (_instances self) -> In run (spans (line_at w a)) ->
    exists line, In line (_instances self') /\ In run (spans (line_at w' line)).
Proof.
  intros Hsort Hadd Hjoin Hout a run Ha Hrun.
  unfold join in Hjoin.
  destruct (_instances self) as [|a0 insts0] eqn:Hinsts; [destruct Ha|].
  rewrite <- Hinsts in *.
  destruct (sort_returns self w) as (rows & Hc & Es).
  match type of Es with _ = (_, Ok ?x) => remember x as sorted eqn:Hsorted end.
  assert (Hperm : Permutation (_instances sorted) (_instances self)).
  { subst sorted. cbn [_instances]. rewrite sorted_rows_perm, Hc. apply Hsort. }
  clear Hsorted Hc rows.
  rewrite (bind_ok _ _ _ _ _ Es) in Hjoin.
  destruct (join_loop_order t1 t2 (_instances sorted) [] w)
    as (w1 & kept & msgs & El & _).
  rewrite (bind_ok _ _ _ _ _ El) in Hjoin. cbn [_instances app] in Hjoin.
  destruct (join_loop_runs t1 t2 Hadd _ _ _ _ _ El) as (_ & _ & Hkeep).
  assert (Hw : line_at w' = line_at w1 /\ stdout w' = stdout w1 /\ _instances self' = kept).
  { revert Hjoin. unfold reset. destruct (_parent sorted); cbn; intros [= <- <-]; auto. }
  destruct Hw as (HL & HO & HI). rewrite HL, HI.
  cbn [_instances] in Hkeep.
  apply (Hkeep ltac:(congruence) a run); [|exact Hrun].
  apply Permutation_in with (l := _instances self); [symmetry; exact Hperm | exact Ha].
Qed.

(** X8: [strip] on a collection of distinct lines. Each member is left as
    [Line.strip] makes it from its state at the call and no other line is
    touched, also when the method raises; the outcome is false when no
    member reports a change, true when one does and the collection has an
    owning block, and [AttributeError] (from [None.update_bbox]) when one
    does and there is no owning block. *)
Theorem Lines_strip_each_line (self : Lines) (w : World) :
  List.NoDup (_instances self) ->
  let w' := fst (strip self w) in
  (forall a, In a (_instances self) -> line_at w' a = fst (Line_strip (line_at w a))) /\
  (forall a, ~ In a (_instances self) -> line_at w' a = line_at w a) /\
  snd (strip self w) =
    (if existsb (fun a => snd (Line_strip (line_at w a))) (_instances self)
     then match _parent self with
          | None => Raise AttributeError
          | Some _ => Ok true
          end
     else Ok false).
Proof.
  intros Hnd.
  destruct (strip_lines_spec (_instances self) w) as (w1 & status & E & _).
  destruct (strip_lines_effect _ Hnd _ _ _ E) as (Hst & Hin & Hout).
  assert (Hany : existsb id status
                 = existsb (fun a => snd (Line_strip (line_at w a))) (_instances self)).
  { rewrite Hst. clear. induction (_instances self) as [|a l IH]; [reflexivity|].
    cbn [map existsb]. rewrite IH. reflexivity. }
  unfold strip. rewrite (bind_ok _ _ _ _ _ E), Hany.
  destruct (existsb _ (_instances self)); [destruct (_parent self)|];
    cbn; repeat split; auto.
Qed.

(** The value given to [line_break] is 0 or 1. *)
Lemma line_break_of_range (L : addr -> Line) (insts : list addr) (block : Block)
    (idx : Z) (delta width thr : float) (i : nat) (line : addr) (v : Z) :
  line_break_of L insts block idx delta width thr i line = Ok v -> v = 0 \/ v = 1.
Proof.
  unfold line_break_of.
  destruct (last insts); cbn [mbind result_bind from_option]; [|discriminate].
  destruct (Nat.eqb line a); [intros [= <-]; auto|].
  destruct (insts !! S i); cbn [mbind result_bind from_option]; [|discriminate].
  destruct (in_same_row _ _); [intros [= <-]; auto|].
  destruct (py_truediv _ _); cbn [mbind result_bind]; [|discriminate].
  destruct (py_gt _ _); [intros [= <-]; auto|].
  destruct (negb _); intros [= <-]; auto.
Qed.

(** X9: what [parse_line_break] touches, and the branches of lines 257-258
    and 265-266. On a collection of distinct lines owned by a block of
    non-zero width, only the [line_break] of the members changes, and it
    becomes 0 or 1; blocks, spans and the console are as they were; a line
    in the row of the next line gets 0; a line that is not, and whose next
    line has blank text, gets 1 whatever the threshold. *)
Theorem Lines_parse_line_break_frame (self : Lines) (w : World) (p : addr)
    (threshold : float) :
  _parent self = Some p ->
  NoDup (_instances self) ->
  (break_width (block_at w p) =? 0)%float = false ->
  exists w',
    parse_line_break self threshold w = (w', Ok tt) /\
    (forall a, ~ In a (_instances self) -> line_at w' a = line_at w a) /\
    (forall a, In a (_instances self) ->
       exists v, (v = 0 \/ v = 1) /\ line_at w' a = with_line_break (line_at w a) v) /\
    block_at w' = block_at w /\ span_heap w' = span_heap w /\ stdout w' = stdout w /\
    (forall i line next,
       _instances self !! i = Some line ->
       _instances self !! S i = Some next ->
       in_same_row (line_at w line) (line_at w next) = true ->
       line_break (line_at w' line) = 0) /\
    (forall i line next,
       _instances self !! i = Some line ->
       _instances self !! S i = Some next ->
       in_same_row (line_at w line) (line_at w next) = false ->
       py_strip (text (line_at w next)) = [] ->
       line_break (line_at w' line) = 1).
Proof.
  intros Hp Hnd Hwidth.
  destruct (line_break_loop_spec w (_instances self) (block_at w p)
              (break_edge (block_at w p)) (break_delta (block_at w p))
              (break_width (block_at w p)) threshold Hwidth
              (_instances self) [] w eq_refl Hnd (fun a _ => eq_refl))
    as (w' & E & Hout & Hin & Hb & Hs & Ho).
  cbn [length Nat.add] in Hin.
  assert (Hne : forall i line next last_line,
            _instances self !! i = Some line -> _instances self !! S i = Some next ->
            last (_instances self) = Some last_line -> Nat.eqb line last_line = false).
  { intros i line next last_line Hi Hnext Hlast. apply Nat.eqb_neq. intros ->.
    rewrite last_lookup in Hlast.
    pose proof (NoDup_lookup _ _ _ _ Hnd Hi Hlast) as Heq.
    apply lookup_lt_Some in Hnext. lia. }
  exists w'. split.
  { unfold parse_line_break. rewrite Hp.
    rewrite (bind_ok (load_block p) _ w w (block_at w p) eq_refl).
    rewrite <- E. unfold break_edge, break_delta, break_width, enumerate.
    destruct (is_RIGHT (alignment (block_at w p))); reflexivity. }
  split; [exact Hout|]. split.
  { intros a Ha. apply list_elem_of_In, list_elem_of_lookup in Ha as [j Hj].
    destruct (Hin j a Hj) as (v & Hv & Hw). exists v.
    split; [exact (line_break_of_range _ _ _ _ _ _ _ _ _ _ Hv) | exact Hw]. }
  split; [exact Hb|]. split; [exact Hs|]. split; [exact Ho|]. split.
  - intros i line next Hi Hnext Hrow.
    destruct (Hin _ _ Hi) as (v & Hv & Hw). rewrite Hw. cbn [line_break with_line_break].
    unfold line_break_of in Hv.
    destruct (last (_instances self)) as [last_line|] eqn:Hlast;
      cbn [mbind result_bind from_option] in Hv; [|discriminate].
    rewrite (Hne _ _ _ _ Hi Hnext eq_refl), Hnext in Hv.
    cbn [mbind result_bind from_option] in Hv. rewrite Hrow in Hv. congruence.
  - intros i line next Hi Hnext Hrow Hblank.
    destruct (Hin _ _ Hi) as (v & Hv & Hw). rewrite Hw. cbn [line_break with_line_break].
    unfold line_break_of in Hv.
    destruct (last (_instances self)) as [last_line|] eqn:Hlast;
      cbn [mbind result_bind from_option] in Hv; [|discriminate].
    rewrite (Hne _ _ _ _ Hi Hnext eq_refl), Hnext in Hv.
    cbn [mbind result_bind from_option] in Hv. rewrite Hrow, Hblank in Hv.
    destruct (py_truediv _ _); cbn [mbind result_bind] in Hv; [|discriminate].
    destruct (py_gt _ _); cbn [negb] in Hv; congruence.
Qed.

(** With a block of zero width the loop of [parse_line_break] divides by
    zero at the first line that is not in the row of the next one. *)
Lemma line_break_loop_zero_width (w : World) (insts : list addr) (block : Block)
    (idx : Z) (delta width thr : float) (rest : list addr) :
  (width =? 0)%float = true ->
  forall (pre : list addr) (wc : World),
  insts = pre ++ rest ->
  NoDup rest ->
  (forall a, In a rest -> line_at wc a = line_at w a) ->
  snd (line_break_loop insts block idx delta width thr
         (enumerate_from (length pre) rest) wc)
  = if one_row (line_at w) rest then Ok tt else Raise ZeroDivisionError.
Proof.
  intros Hz. induction rest as [|line rest IH]; intros pre wc Hsplit Hnd Hsame.
  - reflexivity.
  - cbn [enumerate_from line_break_loop].
    rewrite (bind_ok (gets line_at) _ wc wc (line_at wc) eq_refl).
    apply NoDup_cons in Hnd as [Hnotin Hnd']. rewrite list_elem_of_In in Hnotin.
    assert (Hgo : forall w1,
              (forall a, In a rest -> line_at w1 a = line_at w a) ->
              snd (line_break_loop insts block idx delta width thr
                     (enumerate_from (S (length pre)) rest) w1)
              = if one_row (line_at w) rest then Ok tt else Raise ZeroDivisionError).
    { intros w1 H1. specialize (IH (pre ++ [line]) w1).
      rewrite length_app in IH. cbn [length] in IH.
      replace (length pre + 1)%nat with (S (length pre)) in IH by lia.
      apply IH; [rewrite <- app_assoc; exact Hsplit | exact Hnd' | exact H1]. }
    assert (Hkeep : forall v a, In a rest ->
              line_at (mkWorld (upd (line_at wc) line v) (block_at wc)
                         (span_heap wc) (stdout wc)) a = line_at w a).
    { intros v a Ha. cbn [line_at]. rewrite upd_other.
      - apply Hsame. right. exact Ha.
      - intros ->. contradiction. }
    destruct rest as [|next rest].
    + assert (Hv : line_break_of (line_at wc) insts block idx delta width thr
                     (length pre) line = Ok 0).
      { unfold line_break_of. rewrite Hsplit, last_snoc.
        cbn [mbind result_bind from_option]. rewrite Nat.eqb_refl. reflexivity. }
      rewrite (bind_ok (lift _) _ wc wc 0); [|unfold lift; rewrite Hv; reflexivity].
      rewrite (bind_ok (write_line line _) _ wc _ tt eq_refl). reflexivity.
    + assert (Hlast : exists last_line, last insts = Some last_line /\ line <> last_line).
      { destruct (last (next :: rest)) as [x|] eqn:Hx.
        2: { apply last_None in Hx. discriminate. }
        exists x. split.
        - rewrite Hsplit. apply last_Some in Hx as [l' Hl'].
          rewrite Hl'. change (line :: l' ++ [x]) with ((line :: l') ++ [x]).
          rewrite app_assoc. apply last_snoc.
        - intros <-. apply Hnotin. apply last_Some in Hx as [l' ->].
          apply in_or_app. right. left. reflexivity. }
      destruct Hlast as (last_line & Hlast & Hne). apply Nat.eqb_neq in Hne.
      assert (Hnext : insts !! S (length pre) = Some next).
      { rewrite Hsplit, lookup_app_r by lia.
        replace (S (length pre) - length pre)%nat with 1%nat by lia. reflexivity. }
      change (one_row (line_at w) (line :: next :: rest))
        with (in_same_row (line_at w line) (line_at w next)
              && one_row (line_at w) (next :: rest)).
      assert (Hrows : in_same_row (line_at w line) (line_at w next)
                      = in_same_row (line_at wc line) (line_at wc next)).
      { rewrite (Hsame line), (Hsame next) by (cbn; auto). reflexivity. }
      rewrite Hrows.
      destruct (in_same_row (line_at wc line) (line_at wc next)) eqn:Hrow.
      * assert (Hv : line_break_of (line_at wc) insts block idx delta width thr
                       (length pre) line = Ok 0).
        { unfold line_break_of. rewrite Hlast. cbn [mbind result_bind from_option].
          rewrite Hne, Hnext. cbn [mbind result_bind from_option].
          rewrite Hrow. reflexivity. }
        rewrite (bind_ok (lift _) _ wc wc 0); [|unfold lift; rewrite Hv; reflexivity].
        rewrite (bind_ok (write_line line _) _ wc _ tt eq_refl).
        cbn [andb]. apply Hgo. apply Hkeep.
      * assert (Hv : line_break_of (line_at wc) insts block idx delta width thr
                       (length pre) line = Raise ZeroDivisionError).
        { unfold line_break_of. rewrite Hlast. cbn [mbind result_bind from_option].
          rewrite Hne, Hnext. cbn [mbind result_bind from_option].
          rewrite Hrow. unfold py_truediv. rewrite Hz. reflexivity. }
        rewrite (bind_raise (lift _) _ wc wc ZeroDivisionError);
          [reflexivity | unfold lift; rewrite Hv; reflexivity].
Qed.

(** X10: the outcome of [parse_line_break] on a collection of distinct
    lines. Without an owning block it raises [AttributeError]; with a block
    of non-zero width it returns; with a block of zero width it returns
    when every line is in the row of the next one and raises
    [ZeroDivisionError] otherwise. *)
Theorem Lines_parse_line_break_outcome (self : Lines) (w : World) (threshold : float) :
  NoDup (_instances self) ->
  snd (parse_line_break self threshold w) =
    match _parent self with
    | None => Raise AttributeError
    | Some p =>
        if (break_width (block_at w p) =? 0)%float
        then if one_row (line_at w) (_instances self) then Ok tt
             else Raise ZeroDivisionError
        else Ok tt
    end.
Proof.
  intros Hnd. destruct (_parent self) as [p|] eqn:Hp.
  - destruct (break_width (block_at w p) =? 0)%float eqn:Hwidth.
    + unfold parse_line_break. rewrite Hp.
      rewrite (bind_ok (load_block p) _ w w (block_at w p) eq_refl).
      rewrite <- (line_break_loop_zero_width w (_instances self) (block_at w p)
                    (break_edge (block_at w p)) (break_delta (block_at w p))
                    (break_width (block_at w p)) threshold (_instances self) Hwidth
                    [] w eq_refl Hnd (fun a _ => eq_refl)).
      unfold break_edge, break_delta, break_width, enumerate.
      destruct (is_RIGHT (alignment (block_at w p))); reflexivity.
    + destruct (parse_line_break_values self w p threshold Hp Hnd Hwidth) as (w' & E & _).
      rewrite E. reflexivity.
  - unfold parse_line_break. rewrite Hp. reflexivity.
Qed.

(** The loop of [parse_text_format], entered with the flag down: it ends
    with the flag down or in the [TypeError] of the call of [split], and it
    writes to visited lines only. *)
Lemma parse_text_format_loop_outcome (rect : TextSpan.Shape) (insts : list addr) :
  forall w, exists w',
    (parse_text_format_loop rect insts false w = (w', Ok false) \/
     parse_text_format_loop rect insts false w = (w', Raise TypeError)) /\
    (forall a, ~ In a insts -> line_at w' a = line_at w a) /\
    block_at w' = block_at w /\ span_heap w' = span_heap w /\ stdout w' = stdout w.
Proof.
  induction insts as [|line rest IH]; intros w.
  - exists w. cbn. auto.
  - cbn [parse_text_format_loop].
    rewrite (bind_ok (load_line line) _ w w (line_at w line) eq_refl).
    destruct (rect_bool _); cbn [negb].
    + destruct (forallb is_image (spans (line_at w line))) eqn:Himg.
      * rewrite (bind_ok _ _ _ _ _
                   (split_line_spans_images rect _ _ [] false w Himg)).
        rewrite (bind_ok (load_line line) _ w w (line_at w line) eq_refl).
        rewrite (bind_ok (write_line line _) _ w _ tt eq_refl).
        match goal with
        | |- exists _, (_ ?w1 = _ \/ _) /\ _ =>
            destruct (IH w1) as (w' & Hr & Hout & Hb & Hs & Ho)
        end.
        exists w'. split; [exact Hr|]. cbn in Hout, Hb, Hs, Ho.
        repeat split; auto.
        intros a Ha. rewrite Hout by (intros Hr'; apply Ha; right; exact Hr').
        apply upd_other. intros ->. apply Ha. left. reflexivity.
      * exists w. split; [right|auto].
        apply bind_raise. apply split_line_spans_text_raises, Himg.
    + destruct (_ <? _)%float.
      * exists w. cbn. auto.
      * destruct (IH w) as (w' & Hr & Hout & Hb & Hs & Ho).
        exists w'. split; [exact Hr|]. repeat split; auto.
        intros a Ha. apply Hout. intros Hr'. apply Ha. right. exact Hr'.
Qed.

(** X11: [parse_text_format] never returns true. It returns false or
    raises [TypeError]; either way no line outside the collection, no
    block and no span has been written, and nothing has been printed. *)
Theorem Lines_parse_text_format_never_true (self : Lines) (rect : TextSpan.Shape)
    (w : World) :
  let w' := fst (parse_text_format self rect w) in
  (snd (parse_text_format self rect w) = Ok false \/
   snd (parse_text_format self rect w) = Raise TypeError) /\
  (forall a, ~ In a (_instances self) -> line_at w' a = line_at w a) /\
  block_at w' = block_at w /\ span_heap w' = span_heap w /\ stdout w' = stdout w.
Proof.
  unfold parse_text_format.
  destruct (parse_text_format_loop_outcome rect (_instances self) w)
    as (w' & [E|E] & Hout & Hb & Hs & Ho); rewrite E; cbn [fst snd]; auto.
Qed.

(** X12: the early exit of [parse_text_format], line 210. When the shape
    meets none of the first lines and then comes a line, not met either,
    that starts below the bottom of the shape, the method returns false
    there and has changed nothing, whatever the lines after it are. *)
Theorem Lines_parse_text_format_stops_below (self : Lines) (rect : TextSpan.Shape)
    (w : World) (pre : list addr) (line : addr) (rest : list addr) :
  _instances self = pre ++ line :: rest ->
  (forall a, In a (pre ++ [line]) ->
     rect_bool (rect_and (TextSpan.Shape_bbox rect)
                  (get_expand_bbox (bbox (line_at w a)) MAJOR_DIST)) = false) ->
  (forall a, In a pre ->
     (y1 (TextSpan.Shape_bbox rect) <? y0 (bbox (line_at w a)))%float = false) ->
  (y1 (TextSpan.Shape_bbox rect) <? y0 (bbox (line_at w line)))%float = true ->
  parse_text_format self rect w = (w, Ok false).
Proof.
  intros Hinsts Hmiss Habove Hbelow. unfold parse_text_format. rewrite Hinsts.
  clear Hinsts. induction pre as [|a pre IH].
  - cbn [app parse_text_format_loop].
    rewrite (bind_ok (load_line line) _ w w (line_at w line) eq_refl).
    rewrite (Hmiss line) by (left; reflexivity). cbn [negb].
    rewrite Hbelow. reflexivity.
  - cbn [app parse_text_format_loop].
    rewrite (bind_ok (load_line a) _ w w (line_at w a) eq_refl).
    rewrite (Hmiss a) by (left; reflexivity). cbn [negb].
    rewrite (Habove a) by (left; reflexivity).
    apply IH.
    + intros b Hb. apply Hmiss. right. exact Hb.
    + intros b Hb. apply Habove. right. exact Hb.
Qed.

(** The loop of [make_docx] over distinct lines: it makes every line, in
    order, and adds admissible tab stops only. *)
Lemma make_docx_loop_spec (L : addr -> Line) (insts : list addr) (block : Block)
    (idx0 idx1 : Z) (rest : list addr) :
  forall (pre : list addr) (current_pos : float),
  insts = pre ++ rest ->
  NoDup rest ->
  exists events,
    make_docx_loop L insts block idx0 idx1 (enumerate_from (length pre) rest) current_pos
    = Ok events /\
    made_lines events = rest /\
    Forall (stop_allowed block) events.
Proof.
  induction rest as [|line rest IH]; intros pre current_pos Hsplit Hnd.
  - exists []. repeat split. constructor.
  - cbn [enumerate_from make_docx_loop].
    apply NoDup_cons in Hnd as [Hnotin Hnd']. rewrite list_elem_of_In in Hnotin.
    set (pos := (left_space block
                 + (getitem (bbox (L line)) idx0 - getitem (block_bbox block) idx0))%float).
    assert (Hstop : forall evs,
              made_lines ((if py_gt pos (left_space block) && block_tab_stops block
                           then [AddStop pos current_pos] else []) ++ evs)
              = made_lines evs /\
              (Forall (stop_allowed block) evs ->
               Forall (stop_allowed block)
                 ((if py_gt pos (left_space block) && block_tab_stops block
                   then [AddStop pos current_pos] else []) ++ evs))).
    { intros evs. destruct (py_gt pos (left_space block)) eqn:Hgt;
        destruct (block_tab_stops block) eqn:Htab; cbn [andb app]; split; auto.
      intros Hevs. constructor; [split; assumption | exact Hevs]. }
    destruct rest as [|next rest].
    + rewrite Hsplit, last_snoc. cbn [mbind result_bind from_option].
      rewrite Nat.eqb_refl. eexists. split; [reflexivity|].
      destruct (Hstop [MakeLine line]) as [Hm Hf]. split; [exact Hm|].
      apply Hf. repeat constructor.
    + assert (Hlast : exists last_line, last insts = Some last_line /\ line <> last_line).
      { destruct (last (next :: rest)) as [x|] eqn:Hx.
        2: { apply last_None in Hx. discriminate. }
        exists x. split.
        - rewrite Hsplit. apply last_Some in Hx as [l' Hl'].
          rewrite Hl'. change (line :: l' ++ [x]) with ((line :: l') ++ [x]).
          rewrite app_assoc. apply last_snoc.
        - intros <-. apply Hnotin. apply last_Some in Hx as [l' ->].
          apply in_or_app. right. left. reflexivity. }
      destruct Hlast as (last_line & Hlast & Hne). apply Nat.eqb_neq in Hne.
      assert (Hnext : insts !! S (length pre) = Some next).
      { rewrite Hsplit, lookup_app_r by lia.
        replace (S (length pre) - length pre)%nat with 1%nat by lia. reflexivity. }
      rewrite Hlast. cbn [mbind result_bind from_option].
      rewrite Hne, Hnext. cbn [mbind result_bind from_option].
      match goal with
      | |- context [make_docx_loop _ _ _ _ _ _ ?cur] =>
          destruct (IH (pre ++ [line]) cur) as (events & E & Hm & Hf)
      end.
      { rewrite <- app_assoc. exact Hsplit. }
      { exact Hnd'. }
      rewrite length_app in E. cbn [length] in E.
      replace (length pre + 1)%nat with (S (length pre)) in E by lia.
      rewrite E. cbn [result_bind].
      eexists. split; [reflexivity|].
      destruct (Hstop (MakeLine line :: events)) as [Hm' Hf']. split.
      * rewrite Hm'. cbn [made_lines flat_map app]. f_equal. exact Hm.
      * apply Hf'. constructor; [exact I | exact Hf].
Qed.

(** X14: the calls of [make_docx] on the paragraph, for a collection of
    distinct lines. Without an owning block it raises [AttributeError].
    With one, it makes every line, once and in the order of the collection,
    and changes nothing; a tab stop is added only at a position right of
    the left space of the block and only when the block has tab stops; so a
    block without tab stops gets the lines and nothing else. *)
Theorem Lines_make_docx_lines (self : Lines) (w : World) :
  NoDup (_instances self) ->
  match _parent self with
  | None => make_docx self w = (w, Raise AttributeError)
  | Some p =>
      exists events,
        make_docx self w = (w, Ok events) /\
        made_lines events = _instances self /\
        Forall (stop_allowed (block_at w p)) events /\
        (block_tab_stops (block_at w p) = false ->
         events = map MakeLine (_instances self))
  end.
Proof.
  intros Hnd. destruct (_parent self) as [p|] eqn:Hp.
  - set (block := block_at w p).
    destruct (make_docx_loop_spec (line_at w) (_instances self) block
                (if block_is_horizontal_text block then 0 else 3)
                (((if block_is_horizontal_text block then 0 else 3) + 2) mod 4)
                (_instances self) [] (left_space block) eq_refl Hnd)
      as (events & E & Hm & Hf).
    exists events. split; [|split; [exact Hm | split; [exact Hf|]]].
    + unfold make_docx. rewrite Hp.
      rewrite (bind_ok (load_block p) _ w w block eq_refl).
      rewrite (bind_ok (gets line_at) _ w w (line_at w) eq_refl).
      unfold lift, enumerate. cbn [length] in E. rewrite E. reflexivity.
    + intros Htab. rewrite <- Hm. clear E Hm.
      induction Hf as [|e evs He Hevs IH]; [reflexivity|].
      destruct e as [pos cur|line].
      * destruct He as [_ He]. congruence.
      * cbn [made_lines flat_map app map]. f_equal. exact IH.
  - unfold make_docx. rewrite Hp. reflexivity.
Qed.

End MoreLinesFacts.

(** * Further examples *)

Section MoreExamples.
Import Demo.
#[local] Existing Instance rects.
#[local] Existing Instance base.
#[local] Existing Instance styles.
#[local] Existing Instance lines.
#[local] Existing Instance docs.

Lemma demo_one_glyph (s : @TextSpan.TextSpan base) (c : Glyph) :
  In c (TextSpan.chars s) -> length (TextSpan.Char_c c) = 1%nat.
Proof. intros _. reflexivity. Defined.

Lemma three_lines_distinct : List.NoDup (Lines._instances three_lines).
Proof. repeat constructor; cbn; intuition discriminate. Defined.

Lemma TextSpan_new_text_length_witness :
  TextSpan.__init__ (VDict (TextSpan.store span_ab)) = Ok span_ab /\
  TextSpan.style span_ab = [] /\
  TextSpan._text span_ab = None /\
  snd (TextSpan.text (TextSpan.next heap0) (fst (TextSpan.alloc span_ab heap0)))
    = Ok (concat (map TextSpan.Char_c (TextSpan.chars span_ab))) /\
  (forall c, In c (TextSpan.chars span_ab) -> length (TextSpan.Char_c c) = 1%nat) /\
  exists t, snd (TextSpan.text (TextSpan.next heap0) (fst (TextSpan.alloc span_ab heap0)))
            = Ok t /\
            length t = length (TextSpan.chars span_ab).
Proof.
  assert (Hinit : TextSpan.__init__ (VDict (TextSpan.store span_ab)) = Ok span_ab)
    by (vm_compute; reflexivity).
  destruct (TextSpan_new_text_length (VDict (TextSpan.store span_ab)) span_ab heap0 Hinit)
    as (Hstyle & Hcache & Hread & Hlen).
  split; [exact Hinit|]. split; [exact Hstyle|]. split; [exact Hcache|].
  split; [exact Hread|]. split; [exact (demo_one_glyph span_ab)|].
  exact (Hlen (demo_one_glyph span_ab)).
Defined.

(** The run "ab" read after construction: two code points for two
    characters. *)
Example new_text_ab :
  snd (TextSpan.text (TextSpan.next heap0) (fst (TextSpan.alloc span_ab heap0)))
  = Ok text_ab.
Proof. vm_compute. reflexivity. Qed.


(** A line inside another one is dropped, with its message: the line "ab"
    listed twice under two addresses. *)
Example join_drops_overlap :
  let w := Lines.mkWorld (BO := base) (fun _ => frag_text) (fun _ => block0) heap0 [] in
  snd (Lines.join (Lines.mkLines [0; 1]%nat (Some 0%nat)) 0.9 5 w)
    = Ok (Lines.mkLines [0%nat] (Some 0%nat)) /\
  Lines.stdout (fst (Lines.join (Lines.mkLines [0; 1]%nat (Some 0%nat)) 0.9 5 w))
    = [ignore_message text_ab].
Proof. vm_compute. split; reflexivity. Qed.

Lemma Lines_join_keeps_runs_witness :
  (forall L l, Permutation (sort_by (reading_lt L) l) l) /\
  (forall l rs, Lines.spans (add_runs l rs) = Lines.spans l ++ rs) /\
  Lines.join three_lines 0.9 5 fragments
    = (fst (Lines.join three_lines 0.9 5 fragments),
       Ok (Lines.mkLines [2; 0]%nat (Some 0%nat))) /\
  Lines.stdout (fst (Lines.join three_lines 0.9 5 fragments)) = Lines.stdout fragments /\
  forall a run,
    In a (Lines._instances three_lines) ->
    In run (Lines.spans (Lines.line_at fragments a)) ->
    exists line,
      In line [2; 0]%nat /\
      In run (Lines.spans (Lines.line_at (fst (Lines.join three_lines 0.9 5 fragments)) line)).
Proof.
  assert (Hjoin : Lines.join three_lines 0.9 5 fragments
                  = (fst (Lines.join three_lines 0.9 5 fragments),
                     Ok (Lines.mkLines [2; 0]%nat (Some 0%nat))))
    by (vm_compute; reflexivity).
  assert (Hout : Lines.stdout (fst (Lines.join three_lines 0.9 5 fragments))
                 = Lines.stdout fragments)
    by (vm_compute; reflexivity).
  split; [exact demo_sort_reorders|]. split; [exact demo_add_appends|].
  split; [exact Hjoin|]. split; [exact Hout|].
  exact (Lines_join_keeps_runs three_lines fragments 0.9 5 _ _
           demo_sort_reorders demo_add_appends Hjoin Hout).
Defined.

Lemma Lines_strip_each_line_witness :
  List.NoDup (Lines._instances three_lines) /\
  (forall a, In a (Lines._instances three_lines) ->
     Lines.line_at (fst (Lines.strip three_lines fragments)) a
     = fst (strip_text (Lines.line_at fragments a))) /\
  (forall a, ~ In a (Lines._instances three_lines) ->
     Lines.line_at (fst (Lines.strip three_lines fragments)) a = Lines.line_at fragments a) /\
  snd (Lines.strip three_lines fragments) = Ok true.
Proof.
  split; [exact three_lines_distinct|].
  exact (Lines_strip_each_line three_lines fragments three_lines_distinct).
Defined.

Lemma Lines_parse_line_break_frame_witness :
  Lines._parent two_lines = Some 0%nat /\
  NoDup (Lines._instances two_lines) /\
  (break_width (Lines.block_at (world 49) 0%nat) =? 0)%float = false /\
  exists w',
    Lines.parse_line_break two_lines 0.5 (world 49) = (w', Ok tt) /\
    (forall a, ~ In a (Lines._instances two_lines) ->
       Lines.line_at w' a = Lines.line_at (world 49) a) /\
    (forall a, In a (Lines._instances two_lines) ->
       exists v, (v = 0 \/ v = 1) /\
         Lines.line_at w' a = Lines.with_line_break (Lines.line_at (world 49) a) v) /\
    Lines.block_at w' = Lines.block_at (world 49) /\
    Lines.span_heap w' = Lines.span_heap (world 49) /\
    Lines.stdout w' = Lines.stdout (world 49) /\
    (forall i line next,
       Lines._instances two_lines !! i = Some line ->
       Lines._instances two_lines !! S i = Some next ->
       rows_overlap (Lines.line_at (world 49) line) (Lines.line_at (world 49) next) = true ->
       Lines.line_break (Lines.line_at w' line) = 0) /\
    (forall i line next,
       Lines._instances two_lines !! i = Some line ->
       Lines._instances two_lines !! S i = Some next ->
       rows_overlap (Lines.line_at (world 49) line) (Lines.line_at (world 49) next) = false ->
       py_strip (Lines.text (Lines.line_at (world 49) next)) = [] ->
       Lines.line_break (Lines.line_at w' line) = 1).
Proof.
  split; [reflexivity|]. split; [exact two_lines_distinct|]. split; [reflexivity|].
  exact (Lines_parse_line_break_frame two_lines (world 49) 0%nat 0.5
           eq_refl two_lines_distinct eq_refl).
Defined.

Lemma Lines_parse_line_break_outcome_witness :
  NoDup (Lines._instances two_lines) /\
  snd (Lines.parse_line_break two_lines 0.5
         (Lines.mkWorld (Lines.line_at (world 49))
            (fun _ => Lines.mkBlock (mkRect 5 0 5 20) true Lines.NOT_RIGHT 0 0 0 0)
            heap0 []))
  = Raise ZeroDivisionError.
Proof.
  split; [exact two_lines_distinct|].
  exact (Lines_parse_line_break_outcome two_lines
           (Lines.mkWorld (Lines.line_at (world 49))
              (fun _ => Lines.mkBlock (mkRect 5 0 5 20) true Lines.NOT_RIGHT 0 0 0 0)
              heap0 [])
           0.5 two_lines_distinct).
Defined.

Lemma Lines_parse_text_format_stops_below_witness :
  Lines._instances (Lines.mkLines [0; 2]%nat (Some 0%nat)) = [] ++ 0%nat :: [2%nat] /\
  (forall a, In a ([] ++ [0%nat]) ->
     box_bool (box_and (mkRect 0 0 10 5)
                 (expand (Lines.bbox (Lines.line_at fragments a)) 5)) = false) /\
  (forall a, In a [] ->
     (y1 (mkRect 0 0 10 5) <? y0 (Lines.bbox (Lines.line_at fragments a)))%float = false) /\
  (y1 (mkRect 0 0 10 5) <? y0 (Lines.bbox (Lines.line_at fragments 0%nat)))%float = true /\
  Lines.parse_text_format (Lines.mkLines [0; 2]%nat (Some 0%nat)) (mkRect 0 0 10 5) fragments
  = (fragments, Ok false).
Proof.
  assert (Hmiss : forall a, In a ([] ++ [0%nat]) ->
            box_bool (box_and (mkRect 0 0 10 5)
                        (expand (Lines.bbox (Lines.line_at fragments a)) 5)) = false).
  { intros a [<-|[]]. reflexivity. }
  assert (Habove : forall a : addr, In a [] ->
            (y1 (mkRect 0 0 10 5) <? y0 (Lines.bbox (Lines.line_at fragments a)))%float
            = false).
  { intros a []. }
  split; [reflexivity|]. split; [exact Hmiss|]. split; [exact Habove|].
  split; [reflexivity|].
  exact (Lines_parse_text_format_stops_below (Lines.mkLines [0; 2]%nat (Some 0%nat))
           (mkRect 0 0 10 5) fragments [] 0%nat [2%nat] eq_refl Hmiss Habove eq_refl).
Defined.

Lemma Lines_make_docx_lines_witness :
  NoDup (Lines._instances two_lines) /\
  exists events,
    Lines.make_docx two_lines indented = (indented, Ok events) /\
    made_lines events = [0; 1]%nat /\
    Forall (stop_allowed block_indented) events /\
    (Lines.block_tab_stops block_indented = false ->
     events = map Lines.MakeLine [0; 1]%nat).
Proof.
  split; [exact two_lines_distinct|].
  exact (Lines_make_docx_lines two_lines indented two_lines_distinct).
Defined.

(** [make_docx] on the indented block: a tab stop at 15, from the left
    space 10, before the first line; none before the second, which begins
    at the edge of the block. *)
Example make_docx_indented :
  snd (Lines.make_docx two_lines indented)
  = Ok [Lines.AddStop 15 10; Lines.MakeLine 0%nat; Lines.MakeLine 1%nat].
Proof. vm_compute. reflexivity. Qed.

(** [intersect] with a rectangle over the first half of the run "ab": the
    result keeps the one character, under the bbox of the whole run. *)
Example intersect_first_half :
  snd (TextSpan.intersect 0%nat (mkRect 0 0 10 10) heap0) = Ok 2%nat /\
  TextSpan.chars (TextSpan.cells (fst (TextSpan.intersect 0%nat (mkRect 0 0 10 10) heap0)) 2%nat)
    = [glyph_a] /\
  TextSpan.bbox (TextSpan.cells (fst (TextSpan.intersect 0%nat (mkRect 0 0 10 10) heap0)) 2%nat)
    = mkRect 0 0 20 10.
Proof. vm_compute. repeat split; reflexivity. Qed.

End MoreExamples.
